(** * correct-platinum-fastq-sequence-identifier: a shallow embedding of main.go

    The program rewrites the identifier lines of a four-line-per-record
    FASTQ stream.  It has a sequential mode (one loop over a line scanner)
    and a parallel mode (a batched [source] feeding a pargo pipeline with a
    bounded parallel stage and a strictly ordered sink stage).

    Go values are modelled as follows.
    - a Go [string] / [[]byte] is a [string] (a list of 8-bit [ascii]);
    - a Go [int] is a [Z]; the only arithmetic is [IndexByte + 1],
      [len - 2] and the loop counter of [Fetch], none of which can leave
      the 64-bit range, so no wrap-around occurs;
    - a run-time panic (index out of range, slice bounds out of range, a
      failed [assert], [check] of a non-nil error) is an explicit outcome
      [Panic] of the [result] monad;
    - [bufio.Scanner] with the default line splitter is the list of the
      lines it will still deliver, together with the error [Err()] reports
      once it has stopped;
    - the buffered writer [out] is the string of the bytes written to it so
      far; writes are assumed to succeed, and since neither mode calls
      [out.Flush()], "output" means this string and not the file. *)

From Stdlib Require Import ZArith String Ascii.
From stdpp Require Import base tactics option list gmap relations.

Local Open Scope string_scope.
Local Open Scope Z_scope.

(** ** Go run-time outcomes *)

Module Go.

Inductive error : Type :=
| errorsNew (msg : string)   (* errors.New(msg) *)
| readError (msg : string).  (* an error of the underlying reader *)

Inductive panic : Type :=
| IndexOutOfRange
| SliceBoundsOutOfRange
| AssertionFailed
| PanicError (e : error).

Inductive result (A : Type) : Type :=
| Ret (a : A)
| Panic (p : panic).
Arguments Ret {A} a.
Arguments Panic {A} p.

Definition bind {A B : Type} (m : result A) (k : A -> result B) : result B :=
  match m with
  | Ret a => k a
  | Panic p => Panic p
  end.

#[export] Instance result_ret : MRet result := @Ret.
#[export] Instance result_bind : MBind result := fun A B k m => bind m k.

Definition returns {A : Type} (m : result A) : bool :=
  match m with Ret _ => true | Panic _ => false end.

(** [func check(err error)] *)
Definition check (err : option error) : result unit :=
  match err with
  | Some e => Panic (PanicError e)
  | None => Ret tt
  end.

(** [func assert(b bool)] *)
Definition assert (b : bool) : result unit :=
  if b then Ret tt else Panic AssertionFailed.

(** [s[i]] on a string or byte slice *)
Definition byte_at (s : string) (i : nat) : result ascii :=
  match String.get i s with
  | Some c => Ret c
  | None => Panic IndexOutOfRange
  end.

(** [strings.HasSuffix] / [bytes.HasSuffix]:
    [len(s) >= len(suffix) && s[len(s)-len(suffix):] == suffix] *)
Definition HasSuffix (s suffix : string) : bool :=
  (String.length suffix <=? String.length s)%nat &&
  String.eqb
    (substring (String.length s - String.length suffix) (String.length suffix) s)
    suffix.

(** [strings.IndexByte] / [bytes.IndexByte]: index of the first [c], or -1 *)
Fixpoint IndexByte (s : string) (c : ascii) : Z :=
  match s with
  | EmptyString => -1
  | String a rest =>
      if Ascii.eqb a c then 0
      else let i := IndexByte rest c in
           if i <? 0 then -1 else i + 1
  end.

(** [s[lo:hi]]: panics unless [0 <= lo <= hi <= len(s)] *)
Definition slice (s : string) (lo hi : Z) : result string :=
  if (0 <=? lo) && (lo <=? hi) && (hi <=? Z.of_nat (String.length s))
  then Ret (substring (Z.to_nat lo) (Z.to_nat (hi - lo)) s)
  else Panic SliceBoundsOutOfRange.

Definition len (s : string) : Z := Z.of_nat (String.length s).

End Go.
Import Go.

(** ** bufio.Scanner *)

Record Scanner : Type := mkScanner {
  sc_lines : list string;     (* lines not yet delivered *)
  sc_text : string;           (* the token of the last successful Scan *)
  sc_err : option error       (* what Err() reports once Scan has failed *)
}.

(** [in.Scan()] *)
Definition Scan (sc : Scanner) : bool * Scanner :=
  match sc_lines sc with
  | [] => (false, mkScanner [] "" (sc_err sc))
  | l :: rest => (true, mkScanner rest l (sc_err sc))
  end.

(** [in.Text()] / [in.Bytes()] *)
Definition Text (sc : Scanner) : string := sc_text sc.

(** [in.Err()]; the program consults it only after [Scan] returned false *)
Definition ScannerErr (sc : Scanner) : option error := sc_err sc.

Definition NewScanner (lines : list string) (e : option error) : Scanner :=
  mkScanner lines "" e.

(** ** The identifier rewrite shared by both modes

    [line[bytes.IndexByte(line, ' ')+1 : len(line)-2]] (main.go:65) and
    [r.identifier[strings.IndexByte(r.identifier, ' ')+1 : len(r.identifier)-2]]
    (main.go:212). *)
Definition strip_identifier (identifier : string) : result string :=
  slice identifier (IndexByte identifier " " + 1) (len identifier - 2).

Definition nl : string := String "010"%char "".

(** ** Sequential mode: the loop of
    [correctPlatinumFastqSequenceIdentifierSequential] (main.go:60-83)

    [lines] are the lines [in] still delivers, [out] the bytes written so
    far.  Each [in.Scan()] takes the head of [lines]; the loop ends when
    the scanner has no line left at the top of an iteration (the scanner's
    error is never consulted in this mode). *)
Fixpoint sequential_loop (lines : list string) (out : string) : result string :=
  match lines with
  | [] => Ret out
  | line :: lines =>
      c ← byte_at line 0;
      _ ← assert (Ascii.eqb c "@");
      _ ← assert (HasSuffix line "/1" || HasSuffix line "/2");
      let out := out ++ "@" in
      kept ← slice line (IndexByte line " " + 1) (len line - 2);
      let out := out ++ kept in
      let out := out ++ nl in
      match lines with
      | [] => Panic AssertionFailed
      | line :: lines =>
          let out := out ++ line in
          let out := out ++ nl in
          match lines with
          | [] => Panic AssertionFailed
          | line :: lines =>
              c ← byte_at line 0;
              _ ← assert (Ascii.eqb c "+");
              let out := out ++ "+" ++ nl in
              match lines with
              | [] => Panic AssertionFailed
              | line :: lines =>
                  let out := out ++ line in
                  let out := out ++ nl in
                  sequential_loop lines out
              end
          end
      end
  end.

Definition correctPlatinumFastqSequenceIdentifierSequential
    (input : Scanner) : result string :=
  sequential_loop (sc_lines input) "".

(** ** Parallel mode: the batched source (main.go:86-188) *)

(** [type record struct] *)
Record record : Type := mkRecord {
  identifier : string;
  sequence : string;
  qualities : string
}.

(** [type source struct]; the file and gzip handles carry no state that the
    operations below read, and are left out.  [data] is [None] for the nil
    interface and [Some l] for a [[]record] (the nil slice is [Some []]). *)
Record source : Type := mkSource {
  scanner : Scanner;
  data : option (list record);
  err : option error
}.

Definition set_scanner (s : source) (sc : Scanner) : source :=
  mkSource sc (data s) (err s).
Definition set_data (s : source) (d : option (list record)) : source :=
  mkSource (scanner s) d (err s).
Definition set_err (s : source) (e : option error) : source :=
  mkSource (scanner s) (data s) e.

(** [newSource], once the file is open: nothing fetched, no error *)
Definition newSource (lines : list string) (e : option error) : source :=
  mkSource (NewScanner lines e) None None.

(** [func (s *source) Err() error] *)
Definition Err (s : source) : option error := err s.

(** [func (s *source) Data() interface{}] *)
Definition Data (s : source) : option (list record) := data s.

(** [func (s *source) Prepare(_ context.Context) int] *)
Definition Prepare (s : source) : Z := -1.

(** The [for fetched = 0; fetched < n; fetched++] loop of [Fetch]; [iters]
    is the number of iterations still allowed by [fetched < n], [fetched]
    the loop counter and named result, [data] the local slice. *)
Fixpoint fetch_loop (iters : nat) (fetched : Z) (data : list record)
    (s : source) : result (Z * source) :=
  match iters with
  | O => Ret (fetched, set_data s (Some data))
  | S iters =>
      let '(ok, sc) := Scan (scanner s) in
      let s := set_scanner s sc in
      if negb ok then
        let s := set_err s (ScannerErr sc) in
        match err s with
        | None => Ret (fetched, set_data s (Some data))
        | Some _ => Ret (0, s)
        end
      else
        let r_identifier := Text sc in
        c ← byte_at r_identifier 0;
        if negb (Ascii.eqb c "@") then
          Ret (0, set_err s (Some (errorsNew
                 "malformed identifier line, missing initial @ sign")))
        else if negb (HasSuffix r_identifier "/1" || HasSuffix r_identifier "/2") then
          Ret (0, set_err s (Some (errorsNew
                 "malformed identifier line, missing suffix")))
        else
          let '(ok, sc) := Scan sc in
          let s := set_scanner s sc in
          if negb ok then
            Ret (0, set_err s (Some (errorsNew "missing sequence line")))
          else
            let r_sequence := Text sc in
            let '(ok, sc) := Scan sc in
            let s := set_scanner s sc in
            if negb ok then
              Ret (0, set_err s (Some (errorsNew "missing intermediate line")))
            else
              c ← byte_at (Text sc) 0;
              if negb (Ascii.eqb c "+") then
                Ret (0, set_err s (Some (errorsNew
                       "malformed intermediate line, missing initial + sign")))
              else
                let '(ok, sc) := Scan sc in
                let s := set_scanner s sc in
                if negb ok then
                  Ret (0, set_err s (Some (errorsNew "missing qualities line")))
                else
                  let r_qualities := Text sc in
                  let r := mkRecord r_identifier r_sequence r_qualities in
                  fetch_loop iters (fetched + 1) (data ++ [r]) s
  end.

(** [func (s *source) Fetch(n int) (fetched int)] *)
Definition Fetch (s : source) (n : Z) : result (Z * source) :=
  let s := set_data s None in
  fetch_loop (Z.to_nat n) 0 [] s.

(** ** Parallel mode: the two stage functions (main.go:209-232) *)

(** The function of the bounded parallel stage: rewrite the identifier of
    every record of the batch, in slice order. *)
Fixpoint parallel_receive (records : list record) : result (list record) :=
  match records with
  | [] => Ret []
  | r :: rest =>
      kept ← strip_identifier (identifier r);
      rest' ← parallel_receive rest;
      Ret (mkRecord kept (sequence r) (qualities r) :: rest')
  end.

(** The function of the strictly ordered stage: write every record of the
    batch to [out]. *)
Fixpoint ordered_receive (records : list record) (out : string) : string :=
  match records with
  | [] => out
  | r :: rest =>
      let out := out ++ "@" in
      let out := out ++ identifier r in
      let out := out ++ nl in
      let out := out ++ sequence r in
      let out := out ++ (nl ++ "+" ++ nl) in
      let out := out ++ qualities r in
      let out := out ++ nl in
      ordered_receive rest out
  end.

(** ** The pipeline engine

    Modelled from the spec: the pargo pipeline ([pipeline.Pipeline] with
    [Source], [LimitedPar], [StrictOrd], [Run]) is imported, not part of
    main.go.  The definitions of this section follow sections 4.3 to 4.5 of
    the specification: the driver fetches batches of a fixed size until a
    fetch returns zero records, numbers them 0, 1, 2, ... in fetch order,
    keeps at most [W] of them in flight, a worker finishes any in-flight
    batch at any time, and the ordered sink delivers a batch when its
    number is the expected one and buffers it otherwise. *)

Section Pipeline.

Context {A : Type}.
(** the function of the bounded parallel stage *)
Variable transform : A -> result A.
(** the bound on concurrently dispatched batches *)
Variable W : nat.

Definition batch : Type := nat * A.

(** Modelled from the spec: the numbering of the batches by the driver,
    which is pargo code; section 3, "sequence number assigned at creation,
    starting at 0 and incrementing by one per batch". *)
Fixpoint number (from : nat) (l : list A) : list batch :=
  match l with
  | [] => []
  | a :: l => (from, a) :: number (S from) l
  end.

(** Modelled from the spec: the state of pargo's strictly ordered stage;
    section 4.4, the expected-next counter [E], the buffer of early
    arrivals, and the batches handed to the consumer so far. *)
Record sink : Type := mkSink {
  expected : nat;
  buffer : gmap nat A;
  delivered : list batch
}.

(** Modelled from the spec: the drain loop of pargo's strictly ordered
    stage; section 4.4, "repeatedly check the buffer for E's batch and
    deliver+advance while present".  Every round removes one buffered
    batch, so [size buffer] rounds are enough. *)
Fixpoint drain (rounds : nat) (k : sink) : sink :=
  match rounds with
  | O => k
  | S rounds =>
      match buffer k !! expected k with
      | Some a =>
          drain rounds
            (mkSink (S (expected k)) (delete (expected k) (buffer k))
                    (delivered k ++ [(expected k, a)]))
      | None => k
      end
  end.

(** Modelled from the spec: one arrival at pargo's strictly ordered stage
    (steps 1 and 2 of section 4.4). *)
Definition arrive (b : batch) (k : sink) : sink :=
  if decide (b.1 = expected k) then
    let k := mkSink (S (expected k)) (buffer k) (delivered k ++ [b]) in
    drain (size (buffer k)) k
  else
    mkSink (expected k) (<[b.1 := b.2]> (buffer k)) (delivered k).

(** Modelled from the spec: the state of a run of pargo's engine; the
    batches the driver still has to dispatch, the batches with the workers
    (section 4.3), and the ordered stage (section 4.4). *)
Record engine : Type := mkEngine {
  pending : list batch;    (* fetched by the Source, not yet dispatched *)
  inflight : list batch;   (* dispatched, transform not yet finished *)
  snk : sink
}.

(** Modelled from the spec: a run of pargo's engine is under way, or was
    halted by a failing transform (section 4.3, TransformError). *)
Inductive pstate : Type :=
| Running (e : engine)
| Halted (seqno : nat) (p : panic).   (* TransformError of batch [seqno] *)

Definition start (batches : list A) : pstate :=
  Running (mkEngine (number 0 batches) [] (mkSink 0 ∅ [])).

(** Modelled from the spec: the interleavings of pargo's driver and
    workers; section 4.3 (at most [W] batches in flight, a whole batch per
    worker, completion in arbitrary order, a failing transform halts the
    stage) and section 4.5 (completed batches go to the ordered stage). *)
Inductive step : pstate -> pstate -> Prop :=
| step_dispatch b rest fl k :
    (length fl < W)%nat ->
    step (Running (mkEngine (b :: rest) fl k))
         (Running (mkEngine rest (fl ++ [b]) k))
| step_complete pd fl1 b fl2 a' k :
    transform b.2 = Ret a' ->
    step (Running (mkEngine pd (fl1 ++ b :: fl2) k))
         (Running (mkEngine pd (fl1 ++ fl2) (arrive (b.1, a') k)))
| step_fail pd fl1 b fl2 p k :
    transform b.2 = Panic p ->
    step (Running (mkEngine pd (fl1 ++ b :: fl2) k))
         (Halted b.1 p).

(** Modelled from the spec: the end of a run of pargo's engine, nothing
    pending and nothing in flight (section 4.4, termination). *)
Definition finished (st : pstate) : Prop :=
  match st with
  | Running e => pending e = [] /\ inflight e = []
  | Halted _ _ => False
  end.

Definition delivered_of (st : pstate) : list batch :=
  match st with
  | Running e => delivered (snk e)
  | Halted _ _ => []
  end.

Definition buffer_of (st : pstate) : gmap nat A :=
  match st with
  | Running e => buffer (snk e)
  | Halted _ _ => ∅
  end.

(** A bound on the number of steps a state can still take. *)
Definition work_left (st : pstate) : nat :=
  match st with
  | Running e => S (2 * length (pending e) + length (inflight e))
  | Halted _ _ => 0
  end.

End Pipeline.

(** The invariant of the engine, for the batches [bs] of the source. *)

Section PipelineInvariant.

Local Open Scope nat_scope.

Context {A : Type}.
Variable transform : A -> result A.
Variable bs : list A.

(** What the sink has received is right for the batch it came from. *)
Definition delivers (b v : batch (A := A)) : Prop :=
  v.1 = b.1 /\ transform b.2 = Ret v.2.

(** The invariant of a running engine whose driver has dispatched the
    batches numbered below [d]: the sink has delivered the batches below
    [expected], and every other dispatched batch is in flight or buffered,
    never both and never twice. *)
Record sink_inv (d : nat) (fl : list (batch (A := A))) (k : sink (A := A)) : Prop := {
  si_bound : expected k <= d <= length bs;
  si_delivered : Forall2 delivers (take (expected k) (number 0 bs)) (delivered k);
  si_inflight : forall b, b ∈ fl -> expected k <= b.1 < d /\ bs !! b.1 = Some b.2;
  si_nodup : NoDup fl.*1;
  si_disjoint : forall b, b ∈ fl -> buffer k !! b.1 = None;
  si_buffer : forall i v, buffer k !! i = Some v ->
      expected k <= i < d /\ exists a, bs !! i = Some a /\ transform a = Ret v;
  si_cover : forall i, expected k <= i < d ->
      i ∈ fl.*1 \/ is_Some (buffer k !! i)
}.

Definition drained (k : sink (A := A)) : Prop :=
  buffer k !! expected k = None.

Definition engine_inv (e : engine (A := A)) : Prop :=
  exists d, pending e = drop d (number 0 bs) /\
            sink_inv d (inflight e) (snk e) /\ drained (snk e).

End PipelineInvariant.

(** Modelled from the spec: the fetch loop of the driver (section 4.5),
    "repeatedly calls Source.fetch to produce batches until a zero-length
    batch or an error".  pargo hands the value of [Data()] to the stages.
    Every fetch that returns records consumes lines, so [fuel] larger than
    the number of remaining lines is never exhausted. *)
Fixpoint fetch_batches (fuel : nat) (n : Z) (s : source)
    : result (list (list record) * source) :=
  match fuel with
  | O => Ret ([], s)
  | S fuel =>
      '(fetched, s) ← Fetch s n;
      if fetched =? 0 then Ret ([], s)
      else
        match Data s with
        | None => Ret ([], s)
        | Some d =>
            '(bs, s') ← fetch_batches fuel n s;
            Ret (d :: bs, s')
        end
  end.

Definition source_batches (n : Z) (s : source)
    : result (list (list record) * source) :=
  fetch_batches (S (length (sc_lines (scanner s)))) n s.

(** The bytes the consumer of the ordered stage has written to [out] after
    the batches [ds] were delivered to it, in this order. *)
Definition written (ds : list (nat * list record)) : string :=
  foldl (fun out b => ordered_receive b.2 out) "" ds.

(** A complete run of the parallel mode on the lines of the input: the
    batches of the source go through the engine with the two stage
    functions of main.go, and [p.Err()] is nil at the end. *)
Definition parallel_run (W : nat) (n : Z) (lines : list string)
    (out : string) : Prop :=
  exists bs s' st,
    source_batches n (newSource lines None) = Ret (bs, s') /\
    check (Err s') = Ret tt /\
    rtc (step parallel_receive W) (start bs) st /\
    finished st /\
    out = written (delivered_of st).

(** ** Vocabulary of the statements *)

(** The validation both modes apply to an identifier line. *)
Definition valid_identifier (line : string) : bool :=
  match String.get 0 line with
  | Some c => Ascii.eqb c "@" && (HasSuffix line "/1" || HasSuffix line "/2")
  | None => false
  end.

Definition valid_separator (line : string) : bool :=
  match String.get 0 line with
  | Some c => Ascii.eqb c "+"
  | None => false
  end.

(** [record_lines rs ls]: the lines [ls] are exactly the four-line groups
    of the records [rs], every group passing the validation. *)
Inductive record_lines : list record -> list string -> Prop :=
| record_lines_nil : record_lines [] []
| record_lines_cons id sq sep ql rs ls :
    valid_identifier id = true ->
    valid_separator sep = true ->
    record_lines rs ls ->
    record_lines (mkRecord id sq ql :: rs) (id :: sq :: sep :: ql :: ls).

(** The structural rules a line group can break, and the error [Fetch]
    records for each (main.go:155-176). *)
Inductive rule : Type :=
| MissingMarker      (* identifier line does not begin with '@' *)
| MissingSuffix      (* identifier line ends neither in /1 nor in /2 *)
| MissingSequence    (* the group has one line *)
| MissingSeparator   (* the group has two lines *)
| BadSeparator       (* third line does not begin with '+' *)
| MissingQualities.  (* the group has three lines *)

Definition rule_error (r : rule) : error :=
  errorsNew
    match r with
    | MissingMarker => "malformed identifier line, missing initial @ sign"
    | MissingSuffix => "malformed identifier line, missing suffix"
    | MissingSequence => "missing sequence line"
    | MissingSeparator => "missing intermediate line"
    | BadSeparator => "malformed intermediate line, missing initial + sign"
    | MissingQualities => "missing qualities line"
    end.

(** [violates r lines]: the line group at the head of [lines] breaks rule
    [r] and no earlier one.  The offending line of [MissingMarker] and of
    [BadSeparator] is non-empty. *)
Inductive violates : rule -> list string -> Prop :=
| violates_marker id c rest :
    String.get 0 id = Some c -> c <> "@"%char ->
    violates MissingMarker (id :: rest)
| violates_suffix id rest :
    String.get 0 id = Some "@"%char ->
    HasSuffix id "/1" || HasSuffix id "/2" = false ->
    violates MissingSuffix (id :: rest)
| violates_no_sequence id :
    valid_identifier id = true ->
    violates MissingSequence [id]
| violates_no_separator id sq :
    valid_identifier id = true ->
    violates MissingSeparator [id; sq]
| violates_separator id sq sep c rest :
    valid_identifier id = true ->
    String.get 0 sep = Some c -> c <> "+"%char ->
    violates BadSeparator (id :: sq :: sep :: rest)
| violates_no_qualities id sq sep :
    valid_identifier id = true ->
    valid_separator sep = true ->
    violates MissingQualities [id; sq; sep].

(** The part of a validated identifier that [strip_identifier] keeps, and
    the record the parallel stage makes of a validated record. *)
Definition kept (id : string) : string :=
  substring (Z.to_nat (IndexByte id " " + 1))
            (Z.to_nat (len id - 2 - (IndexByte id " " + 1))) id.

Definition rewritten (r : record) : record :=
  mkRecord (kept (identifier r)) (sequence r) (qualities r).

Definition validated (r : record) : Prop :=
  valid_identifier (identifier r) = true.

(** The four output lines of a record, and of a list of records. *)
Definition record_bytes (r : record) : string :=
  "@" ++ identifier r ++ nl ++ sequence r ++ nl ++ "+" ++ nl ++
  qualities r ++ nl.

Fixpoint encode (rs : list record) : string :=
  match rs with
  | [] => ""
  | r :: rs => record_bytes r ++ encode rs
  end.

(** The identifier line both modes write for an identifier line of the
    input: '@' followed by the kept part (main.go:64-65; main.go:212 with
    main.go:219-220). *)
Definition identifier_line (id : string) : result string :=
  kept ← strip_identifier id;
  Ret ("@" ++ kept).

(** A mode accepts an identifier line when it processes the record that
    the line starts; the other three lines are fixed and well formed. *)
Definition sequential_accepts (line : string) : bool :=
  returns (sequential_loop [line; "A"; "+"; "!"] "").

Definition parallel_accepts (line : string) : bool :=
  match Fetch (newSource [line; "A"; "+"; "!"] None) 1 with
  | Ret (fetched, _) => fetched =? 1
  | Panic _ => false
  end.

(** Operations a caller can apply to a source, and the runs in which every
    [Fetch] returns a full batch. *)
Inductive op : Type :=
| OpFetch (n : Z)
| OpErr
| OpData
| OpPrepare.

Inductive full_run : source -> list op -> source -> Prop :=
| full_run_nil s : full_run s [] s
| full_run_fetch s n s1 ops s2 :
    Fetch s n = Ret (n, s1) -> full_run s1 ops s2 ->
    full_run s (OpFetch n :: ops) s2
| full_run_err s ops s2 :
    full_run s ops s2 -> full_run s (OpErr :: ops) s2
| full_run_data s ops s2 :
    full_run s ops s2 -> full_run s (OpData :: ops) s2
| full_run_prepare s ops s2 :
    full_run s ops s2 -> full_run s (OpPrepare :: ops) s2.

(** ** The two modes with their files, and [main] (main.go:40-58, 102-130,
    190-247)

    The calls into [os], [gzip] and pargo are outside the program: a
    [World] fixes what each of them returns, and the program is a function
    of the world that extends a trace of what it did to the outside.  A
    function body is written after the [defer] statements that guard it:
    [defer d rest] runs [rest], then [d], whether [rest] returned or
    panicked; a panic of [d] is added to the panics under way. *)

Module Prog.

Inductive handle : Type :=
| InFile       (* the *os.File of os.Open *)
| GzReader     (* the *gzip.Reader *)
| OutFile      (* the *os.File of os.Create *)
| GzWriter.    (* the *gzip.Writer *)

Definition handle_eqb (h1 h2 : handle) : bool :=
  match h1, h2 with
  | InFile, InFile | GzReader, GzReader
  | OutFile, OutFile | GzWriter, GzWriter => true
  | _, _ => false
  end.

Inductive event : Type :=
| Println (operands : list string)       (* fmt.Println(operands...) *)
| Acquired (h : handle)                  (* the call returned the handle *)
| Refused (h : handle) (e : error)       (* the call returned the error *)
| Closed (h : handle) (r : option error).  (* h.Close() returned r *)

Record World : Type := mkWorld {
  os_Open : string -> option error;          (* the error of os.Open(name) *)
  os_Create : string -> option error;        (* the error of os.Create(name) *)
  gzip_NewReader : option error;             (* the error of gzip.NewReader *)
  input_lines : list string;                 (* see [Scanner] *)
  input_err : option error;
  close_result : handle -> option error;     (* what h.Close() returns *)
  (* p.Source(src); p.Add(...); p.Run(); p.Err(): the value of p.Err(), or
     the panic that leaves p.Run() *)
  pipeline_Run : source -> result (option error)
}.

Inductive outcome (A : Type) : Type :=
| Normal (a : A)
| Panics (ps : list panic).   (* the panics raised, in order *)
Arguments Normal {A} a.
Arguments Panics {A} ps.

Definition M (A : Type) : Type := list event -> outcome A * list event.

Definition ret {A : Type} (a : A) : M A := fun t => (Normal a, t).

Definition bind {A B : Type} (m : M A) (k : A -> M B) : M B := fun t =>
  match m t with
  | (Normal a, t) => k a t
  | (Panics ps, t) => (Panics ps, t)
  end.

Definition emit (ev : event) : M unit := fun t => (Normal tt, (t ++ [ev])%list).

Definition lift {A : Type} (r : result A) : M A := fun t =>
  match r with
  | Ret a => (Normal a, t)
  | Panic p => (Panics [p], t)
  end.

Definition defer {A : Type} (deferred : M unit) (rest : M A) : M A := fun t =>
  let '(r, t) := rest t in
  let '(c, t) := deferred t in
  (match r, c with
   | Normal a, Normal _ => Normal a
   | Normal _, Panics qs => Panics qs
   | Panics ps, Normal _ => Panics ps
   | Panics ps, Panics qs => Panics (ps ++ qs)%list
   end, t).

(** A call that returns a handle and an error. *)
Definition acquire (h : handle) (err : option error) : M (option error) :=
  match err with
  | None => bind (emit (Acquired h)) (fun _ => ret None)
  | Some e => bind (emit (Refused h e)) (fun _ => ret (Some e))
  end.

(** [h.Close()] *)
Definition close (w : World) (h : handle) : M (option error) :=
  bind (emit (Closed h (close_result w h))) (fun _ => ret (close_result w h)).

(** [defer func() { check(h.Close()) }()] *)
Definition check_close (w : World) (h : handle) : M unit :=
  bind (close w h) (fun r => lift (check r)).

(** [func correctPlatinumFastqSequenceIdentifierSequential] *)
Definition correctPlatinumFastqSequenceIdentifierSequential
    (w : World) (infastq outfastq : string) : M unit :=
  bind (emit (Println ["Correcting platinum fastq sequence identifiers sequentially:";
                       infastq; "to"; outfastq])) (fun _ =>
  bind (acquire InFile (os_Open w infastq)) (fun err =>
  bind (lift (check err)) (fun _ =>
  defer (check_close w InFile) (
  bind (acquire OutFile (os_Create w outfastq)) (fun err =>
  bind (lift (check err)) (fun _ =>
  defer (check_close w OutFile) (
  bind (acquire GzReader (gzip_NewReader w)) (fun err =>
  bind (lift (check err)) (fun _ =>
  defer (check_close w GzReader) (
  bind (acquire GzWriter None) (fun _ =>
  defer (check_close w GzWriter) (
  bind (lift (sequential_loop
                (sc_lines (NewScanner (input_lines w) (input_err w))) ""))
       (fun _ => ret tt))))))))))))).

(** [func newSource]: the source, or the error *)
Definition newSource (w : World) (name : string) : M (source + error) :=
  bind (acquire InFile (os_Open w name)) (fun err =>
  match err with
  | Some e => ret (inr e)
  | None =>
      bind (acquire GzReader (gzip_NewReader w)) (fun err =>
      match err with
      | Some e => bind (close w InFile) (fun _ => ret (inr e))
      | None => ret (inl (newSource (input_lines w) (input_err w)))
      end)
  end).

(** [func (s *source) Close() error] *)
Definition Close (w : World) : M (option error) :=
  bind (close w GzReader) (fun rerr =>
  bind (close w InFile) (fun gerr =>
  match rerr with
  | Some e => ret (Some e)
  | None =>
      match gerr with
      | Some e => ret (Some e)
      | None => ret None
      end
  end)).

(** [func correctPlatinumFastqSequenceIdentifierParallel] *)
Definition correctPlatinumFastqSequenceIdentifierParallel
    (w : World) (infastq outfastq : string) : M unit :=
  bind (emit (Println ["Correcting platinum fastq sequence identifiers in parallel:";
                       infastq; "to"; outfastq])) (fun _ =>
  bind (newSource w infastq) (fun r =>
  match r with
  | inr e => lift (check (Some e))
  | inl src =>
      defer (bind (Close w) (fun r => lift (check r))) (
      bind (acquire OutFile (os_Create w outfastq)) (fun err =>
      bind (lift (check err)) (fun _ =>
      defer (check_close w OutFile) (
      bind (acquire GzWriter None) (fun _ =>
      defer (check_close w GzWriter) (
      bind (lift (pipeline_Run w src)) (fun perr =>
      lift (check perr))))))))
  end)).

Definition usage : string :=
  "correct-platinum-fastq-sequence-identifier [seq|par] in.fastq.gz out.fastq.gz".

(** [os.Args[i]] *)
Definition arg (Args : list string) (i : nat) : M string :=
  match Args !! i with
  | Some a => ret a
  | None => lift (Panic IndexOutOfRange)
  end.

(** [func main] *)
Definition main (w : World) (Args : list string) : M unit :=
  bind (arg Args 1) (fun mode =>
  if String.eqb mode "seq" then
    bind (arg Args 2) (fun a2 =>
    bind (arg Args 3) (fun a3 =>
    correctPlatinumFastqSequenceIdentifierSequential w a2 a3))
  else if String.eqb mode "par" then
    bind (arg Args 2) (fun a2 =>
    bind (arg Args 3) (fun a3 =>
    correctPlatinumFastqSequenceIdentifierParallel w a2 a3))
  else emit (Println [usage])).

(** The handles held after a trace, most recent first, when every
    [Close] in it closes the most recent handle still held. *)
Fixpoint held (t : list event) (stack : list handle) : option (list handle) :=
  match t with
  | [] => Some stack
  | Acquired h :: t => held t (h :: stack)
  | Closed h _ :: t =>
      match stack with
      | h' :: stack => if handle_eqb h h' then held t stack else None
      | [] => None
      end
  | _ :: t => held t stack
  end.

End Prog.

(** [empty_line lines]: the line group at the head of [lines] has an empty
    identifier line, or a validated identifier line and an empty separator
    line: the two lines both modes index at 0 before they test them
    (main.go:62, 75, 154, 171). *)
Inductive empty_line : list string -> Prop :=
| empty_identifier rest :
    empty_line (""%string :: rest)
| empty_separator id sq rest :
    valid_identifier id = true ->
    empty_line (id :: sq :: ""%string :: rest).


(** * Properties *)

Local Open Scope list_scope.

(** ** Sample runs *)

Example fetch_two :
  Fetch (newSource ["@a b/1"; "ACGT"; "+x"; "!!!!"; "@c/2"; "AC"; "+"; "!!"] None) 5
  = Ret (2, mkSource (mkScanner [] "" None)
              (Some [mkRecord "@a b/1" "ACGT" "!!!!"; mkRecord "@c/2" "AC" "!!"]) None).
Proof. reflexivity. Qed.

Example sequential_two :
  sequential_loop ["@a b/1"; "ACGT"; "+x"; "!!!!"; "@c/2"; "AC"; "+"; "!!"] ""
  = Ret ("@b" ++ nl ++ "ACGT" ++ nl ++ "+" ++ nl ++ "!!!!" ++ nl ++
         "@@c" ++ nl ++ "AC" ++ nl ++ "+" ++ nl ++ "!!" ++ nl)%string.
Proof. reflexivity. Qed.

(** ** Strings *)

Section Strings.

Local Open Scope nat_scope.

Lemma IndexByte_range s c :
  (-1 <= IndexByte s c < Z.of_nat (String.length s))%Z.
Proof.
  induction s as [|a s IH]; simpl; [lia|].
  destruct (Ascii.eqb a c); [lia|].
  destruct (Z.ltb_spec (IndexByte s c) 0); lia.
Qed.

Lemma IndexByte_get s c :
  (0 <= IndexByte s c)%Z ->
  String.get (Z.to_nat (IndexByte s c)) s = Some c.
Proof.
  induction s as [|a s IH]; simpl; [lia|].
  destruct (Ascii.eqb_spec a c) as [->|Hne]; [done|].
  destruct (Z.ltb_spec (IndexByte s c) 0) as [Hlt|Hge]; [lia|].
  intros _. replace (Z.to_nat (IndexByte s c + 1)) with (S (Z.to_nat (IndexByte s c))) by lia.
  simpl. by apply IH.
Qed.

Lemma IndexByte_absent s c i :
  IndexByte s c = (-1)%Z -> String.get i s <> Some c.
Proof.
  revert i. induction s as [|a s IH]; intros i; simpl; [done|].
  destruct (Ascii.eqb_spec a c) as [->|Hne]; [lia|].
  destruct (Z.ltb_spec (IndexByte s c) 0) as [Hlt|Hge].
  - intros _. destruct i as [|i]; [congruence|].
    apply IH. pose proof (IndexByte_range s c). lia.
  - pose proof (IndexByte_range s c). lia.
Qed.

Lemma IndexByte_app_first pre c rest :
  IndexByte pre c = (-1)%Z ->
  IndexByte (pre ++ String c rest) c = Z.of_nat (String.length pre).
Proof.
  induction pre as [|a pre IH]; simpl.
  - intros _. by rewrite Ascii.eqb_refl.
  - destruct (Ascii.eqb a c); [lia|].
    destruct (Z.ltb_spec (IndexByte pre c) 0) as [Hlt|Hge].
    + intros _. pose proof (IndexByte_range pre c).
      rewrite IH by lia.
      destruct (Z.ltb_spec (Z.of_nat (String.length pre)) 0); lia.
    + pose proof (IndexByte_range pre c). lia.
Qed.

Lemma append_cons a (s t : string) : (String a s ++ t = String a (s ++ t))%string.
Proof. reflexivity. Qed.

Lemma append_assoc (s t u : string) : ((s ++ t) ++ u = s ++ (t ++ u))%string.
Proof. induction s as [|a s IH]; [done|]. by rewrite !append_cons, IH. Qed.

Lemma append_nil_r (s : string) : (s ++ "")%string = s.
Proof. induction s as [|a s IH]; [done|]. by rewrite append_cons, IH. Qed.

Lemma length_append s t :
  String.length (s ++ t) = String.length s + String.length t.
Proof. induction s as [|a s IH]; simpl; [done|]. by rewrite IH. Qed.

Lemma substring_skip p q n m :
  substring (String.length p + n) m (p ++ q) = substring n m q.
Proof. induction p; simpl; auto. Qed.

Lemma substring_prefix m s :
  substring 0 (String.length m) (m ++ s) = m.
Proof.
  induction m as [|a m IH]; simpl.
  - by destruct s.
  - by rewrite IH.
Qed.

Lemma substring_head n a s :
  substring 0 (S n) (String a s) = String a (substring 0 n s).
Proof. reflexivity. Qed.

Lemma HasSuffix_get2 s a b :
  HasSuffix s (String a (String b "")) = true ->
  2 <= String.length s /\
  String.get (String.length s - 2) s = Some a /\
  String.get (String.length s - 1) s = Some b.
Proof.
  unfold HasSuffix. simpl String.length.
  intros [Hlen Heq]%andb_true_iff.
  apply Nat.leb_le in Hlen. apply String.eqb_eq in Heq.
  split; [done|]. split.
  - rewrite <- (Nat.add_0_l (String.length s - 2)).
    rewrite <- substring_correct1 with (m := 2) by lia. by rewrite Heq.
  - replace (String.length s - 1) with (1 + (String.length s - 2)) by lia.
    rewrite <- substring_correct1 with (m := 2) by lia. by rewrite Heq.
Qed.

(** What the validation of an identifier line establishes. *)
Lemma valid_identifier_shape id :
  valid_identifier id = true ->
  String.get 0 id = Some "@"%char /\
  3 <= String.length id /\
  String.get (String.length id - 2) id = Some "/"%char /\
  (String.get (String.length id - 1) id = Some "1"%char \/
   String.get (String.length id - 1) id = Some "2"%char).
Proof.
  unfold valid_identifier.
  destruct (String.get 0 id) as [c|] eqn:H0; [|done].
  intros [Hc Hsuf]%andb_true_iff.
  apply Ascii.eqb_eq in Hc. subst c.
  assert (2 <= String.length id /\
          String.get (String.length id - 2) id = Some "/"%char /\
          (String.get (String.length id - 1) id = Some "1"%char \/
           String.get (String.length id - 1) id = Some "2"%char)) as (Hl & Hs & Hd).
  { apply orb_true_iff in Hsuf as [H|H];
      apply HasSuffix_get2 in H as (? & ? & ?); auto. }
  repeat split; auto.
  destruct (decide (String.length id = 2)) as [E|]; [|lia].
  rewrite E in Hs. change (2 - 2) with 0 in Hs. congruence.
Qed.

Lemma valid_identifier_space id :
  valid_identifier id = true ->
  (0 <= IndexByte id " " + 1 <= len id - 2)%Z.
Proof.
  intros (H0 & Hlen & Hs & Hd)%valid_identifier_shape.
  pose proof (IndexByte_range id " ") as Hr. unfold len.
  split; [lia|].
  destruct (decide (IndexByte id " " = -1)%Z) as [->|Hne]; [lia|].
  pose proof (IndexByte_get id " " ltac:(lia)) as Hg.
  destruct (decide (Z.to_nat (IndexByte id " ") = String.length id - 2)) as [E|].
  { rewrite E in Hg. congruence. }
  destruct (decide (Z.to_nat (IndexByte id " ") = String.length id - 1)) as [E|].
  { rewrite E in Hg. destruct Hd; congruence. }
  lia.
Qed.

Lemma strip_identifier_total id :
  valid_identifier id = true ->
  strip_identifier id = Ret (kept id).
Proof.
  intros H. pose proof (valid_identifier_space id H) as Hb.
  unfold strip_identifier, slice, kept. unfold len in *.
  destruct (Z.leb_spec 0 (IndexByte id " " + 1)); [|lia].
  destruct (Z.leb_spec (IndexByte id " " + 1) (Z.of_nat (String.length id) - 2)); [|lia].
  destruct (Z.leb_spec (Z.of_nat (String.length id) - 2) (Z.of_nat (String.length id))); [|lia].
  reflexivity.
Qed.

End Strings.

(** ** The loop of [Fetch] *)

Section FetchLoop.

Local Open Scope nat_scope.

Lemma valid_identifier_split id :
  valid_identifier id = true ->
  String.get 0 id = Some "@"%char /\
  HasSuffix id "/1" || HasSuffix id "/2" = true.
Proof.
  unfold valid_identifier. destruct (String.get 0 id) as [c|]; [|done].
  intros [Hc Hs]%andb_true_iff. apply Ascii.eqb_eq in Hc. by subst c.
Qed.

Lemma valid_identifier_join id :
  String.get 0 id = Some "@"%char ->
  HasSuffix id "/1" || HasSuffix id "/2" = true ->
  valid_identifier id = true.
Proof. unfold valid_identifier. intros -> ->. reflexivity. Qed.

Lemma valid_separator_get sep :
  valid_separator sep = true -> String.get 0 sep = Some "+"%char.
Proof.
  unfold valid_separator. destruct (String.get 0 sep) as [c|]; [|done].
  intros Hc. apply Ascii.eqb_eq in Hc. by subst c.
Qed.

(** One iteration of the loop on a line group that passes every check. *)
Lemma fetch_loop_group iters fetched dat id sq sep ql lines text e d er :
  valid_identifier id = true ->
  valid_separator sep = true ->
  fetch_loop (S iters) fetched dat
    (mkSource (mkScanner (id :: sq :: sep :: ql :: lines) text e) d er)
  = fetch_loop iters (fetched + 1)%Z (dat ++ [mkRecord id sq ql])
      (mkSource (mkScanner lines ql e) d er).
Proof.
  intros [H0 Hs]%valid_identifier_split Hp%valid_separator_get.
  cbn. unfold byte_at. rewrite H0. cbn. rewrite Hs. cbn.
  rewrite Hp. reflexivity.
Qed.

(** The well-formed groups at the head of the stream are consumed one per
    iteration. *)
Lemma fetch_loop_groups rs ls :
  record_lines rs ls ->
  forall k fetched dat rest text e d er,
  exists text',
    fetch_loop (length rs + k) fetched dat
      (mkSource (mkScanner (ls ++ rest) text e) d er)
    = fetch_loop k (fetched + Z.of_nat (length rs))%Z (dat ++ rs)
        (mkSource (mkScanner rest text' e) d er).
Proof.
  induction 1 as [|id sq sep ql rs ls Hid Hsep Hrl IH];
    intros k fetched dat rest text e d er.
  - exists text. cbn [length app Nat.add]. by rewrite Z.add_0_r, app_nil_r.
  - destruct (IH k (fetched + 1)%Z (dat ++ [mkRecord id sq ql])%list rest ql e d er)
      as [text' Heq].
    exists text'. cbn [length Nat.add]. rewrite <- !app_comm_cons.
    rewrite fetch_loop_group by done. rewrite Heq.
    rewrite <- app_assoc. cbn [app].
    by replace (fetched + 1 + Z.of_nat (length rs))%Z
      with (fetched + Z.of_nat (S (length rs)))%Z by lia.
Qed.

(** What a returning run of the loop says about the stream it read. *)
Lemma fetch_loop_inv iters :
  forall fetched dat s f' s',
  fetch_loop iters fetched dat s = Ret (f', s') ->
  sc_err (scanner s') = sc_err (scanner s) /\
  exists rs ls rest,
    sc_lines (scanner s) = (ls ++ rest)%list /\ record_lines rs ls /\
    ((length rs = iters /\ f' = (fetched + Z.of_nat iters)%Z /\
      data s' = Some (dat ++ rs) /\ err s' = err s /\
      sc_lines (scanner s') = rest)
     \/
     (length rs < iters /\ rest = [] /\ sc_err (scanner s) = None /\
      f' = (fetched + Z.of_nat (length rs))%Z /\
      data s' = Some (dat ++ rs) /\ err s' = None /\
      sc_lines (scanner s') = [])
     \/
     (length rs < iters /\ f' = 0%Z /\ data s' = data s /\
      exists e, err s' = Some e /\
        ((rest = [] /\ sc_err (scanner s) = Some e) \/
         exists r, violates r rest /\ e = rule_error r))).
Proof.
  induction iters as [|iters IH]; intros fetched dat s f' s' Hrun.
  - cbn in Hrun. injection Hrun as <- <-. split; [done|].
    exists [], [], (sc_lines (scanner s)). split; [done|]. split; [constructor|].
    left. cbn. rewrite Z.add_0_r, app_nil_r. done.
  - destruct s as [[lines text e] d er].
    destruct lines as [|id lines].
    { cbn in Hrun. destruct e as [e|]; cbn in Hrun; injection Hrun as <- <-.
      - split; [done|]. exists [], [], []. split; [done|]. split; [constructor|].
        right; right. cbn. repeat split; try lia. exists e. eauto.
      - split; [done|]. exists [], [], []. split; [done|]. split; [constructor|].
        right; left. cbn. rewrite Z.add_0_r, app_nil_r. repeat split; lia. }
    cbn in Hrun. unfold byte_at in Hrun.
    destruct (String.get 0 id) as [c|] eqn:H0; [|done]. cbn in Hrun.
    destruct (Ascii.eqb_spec c "@") as [->|Hc]; cbn in Hrun; cycle 1.
    { injection Hrun as <- <-. split; [done|].
      exists [], [], (id :: lines). split; [done|]. split; [constructor|].
      right; right. cbn. repeat split; try lia. eexists. split; [done|].
      right. eexists. split; [by eapply violates_marker|done]. }
    destruct (HasSuffix id "/1" || HasSuffix id "/2") eqn:Hs; cbn in Hrun; cycle 1.
    { injection Hrun as <- <-. split; [done|].
      exists [], [], (id :: lines). split; [done|]. split; [constructor|].
      right; right. cbn. repeat split; try lia. eexists. split; [done|].
      right. eexists. split; [by eapply violates_suffix|done]. }
    pose proof (valid_identifier_join id H0 Hs) as Hid.
    destruct lines as [|sq lines]; cbn in Hrun.
    { injection Hrun as <- <-. split; [done|].
      exists [], [], [id]. split; [done|]. split; [constructor|].
      right; right. cbn. repeat split; try lia. eexists. split; [done|].
      right. eexists. split; [by eapply violates_no_sequence|done]. }
    destruct lines as [|sep lines]; cbn in Hrun.
    { injection Hrun as <- <-. split; [done|].
      exists [], [], [id; sq]. split; [done|]. split; [constructor|].
      right; right. cbn. repeat split; try lia. eexists. split; [done|].
      right. eexists. split; [by eapply violates_no_separator|done]. }
    destruct (String.get 0 sep) as [c|] eqn:Hp; [|done]. cbn in Hrun.
    destruct (Ascii.eqb_spec c "+") as [->|Hc]; cbn in Hrun; cycle 1.
    { injection Hrun as <- <-. split; [done|].
      exists [], [], (id :: sq :: sep :: lines). split; [done|]. split; [constructor|].
      right; right. cbn. repeat split; try lia. eexists. split; [done|].
      right. eexists. split; [by eapply violates_separator|done]. }
    assert (valid_separator sep = true) as Hsep.
    { unfold valid_separator. by rewrite Hp. }
    destruct lines as [|ql lines]; cbn in Hrun.
    { injection Hrun as <- <-. split; [done|].
      exists [], [], [id; sq; sep]. split; [done|]. split; [constructor|].
      right; right. cbn. repeat split; try lia. eexists. split; [done|].
      right. eexists. split; [by eapply violates_no_qualities|done]. }
    apply IH in Hrun as (He & rs & ls & rest & Hl & Hrl & Hcases).
    cbn in He, Hl. split; [done|].
    exists (mkRecord id sq ql :: rs), (id :: sq :: sep :: ql :: ls), rest.
    split; [by rewrite Hl|]. split; [by constructor|].
    cbn [length scanner sc_lines sc_err data err] in *.
    rewrite <- !app_assoc in Hcases. cbn [app] in Hcases.
    destruct Hcases as [(? & ? & ? & ? & ?)|[(? & ? & ? & ? & ? & ? & ?)|(? & ? & ? & ?)]].
    + left. repeat split; auto; lia.
    + right; left. repeat split; auto; lia.
    + right; right. repeat split; auto; lia.
Qed.

(** The loop stops at the first group that breaks a rule. *)
Lemma fetch_loop_violation r rest :
  violates r rest ->
  forall iters fetched dat text e d er,
  exists sc',
    fetch_loop (S iters) fetched dat (mkSource (mkScanner rest text e) d er)
    = Ret (0%Z, mkSource sc' d (Some (rule_error r))) /\
    sc_err sc' = e.
Proof.
  destruct 1 as [id c rest H0 Hc|id rest H0 Hs|id Hid|id sq Hid
                |id sq sep c rest Hid Hp Hc|id sq sep Hid Hsep];
    intros iters fetched dat text e d er; cbn; unfold byte_at.
  - rewrite H0. cbn. destruct (Ascii.eqb_spec c "@"); [done|]. cbn. eauto.
  - rewrite H0. cbn. rewrite Hs. cbn. eauto.
  - apply valid_identifier_split in Hid as [-> Hs]. cbn. rewrite Hs. cbn. eauto.
  - apply valid_identifier_split in Hid as [-> Hs]. cbn. rewrite Hs. cbn. eauto.
  - apply valid_identifier_split in Hid as [-> Hs]. cbn. rewrite Hs. cbn.
    rewrite Hp. cbn. destruct (Ascii.eqb_spec c "+"); [done|]. cbn. eauto.
  - apply valid_identifier_split in Hid as [-> Hs]. cbn. rewrite Hs. cbn.
    apply valid_separator_get in Hsep as ->. cbn. eauto.
Qed.

End FetchLoop.

(** ** The stage functions and the sequential loop *)

Section Stages.

Lemma ordered_receive_encode rs out :
  ordered_receive rs out = (out ++ encode rs)%string.
Proof.
  revert out. induction rs as [|r rs IH]; intros out; cbn [ordered_receive encode].
  - by rewrite append_nil_r.
  - rewrite IH. unfold record_bytes. by rewrite !append_assoc.
Qed.

Lemma encode_app rs1 rs2 :
  encode (rs1 ++ rs2) = (encode rs1 ++ encode rs2)%string.
Proof.
  induction rs1 as [|r rs1 IH]; cbn [encode app]; [done|].
  by rewrite IH, append_assoc.
Qed.

Lemma parallel_receive_validated rs :
  Forall validated rs -> parallel_receive rs = Ret (map rewritten rs).
Proof.
  induction 1 as [|r rs Hr _ IH]; [done|].
  cbn [parallel_receive map]. rewrite (strip_identifier_total _ Hr). cbn.
  rewrite IH. reflexivity.
Qed.

Lemma record_lines_validated rs ls :
  record_lines rs ls -> Forall validated rs.
Proof. induction 1; constructor; auto. Qed.

Lemma record_lines_length rs ls :
  record_lines rs ls -> length ls = (4 * length rs)%nat.
Proof. induction 1; cbn [length]; lia. Qed.

(** One iteration of the sequential loop on a group that passes every
    check writes the four lines of the rewritten record. *)
Lemma sequential_loop_group id sq sep ql lines out :
  valid_identifier id = true ->
  valid_separator sep = true ->
  sequential_loop (id :: sq :: sep :: ql :: lines) out
  = sequential_loop lines (out ++ record_bytes (rewritten (mkRecord id sq ql)))%string.
Proof.
  intros Hid Hp%valid_separator_get.
  pose proof (strip_identifier_total id Hid) as Hk.
  apply valid_identifier_split in Hid as [H0 Hs].
  cbn [sequential_loop]. unfold byte_at. rewrite H0. cbn. rewrite Hs. cbn.
  unfold strip_identifier in Hk. rewrite Hk. cbn. rewrite Hp. cbn.
  unfold record_bytes, rewritten. cbn [identifier sequence qualities].
  by rewrite !append_assoc.
Qed.

Lemma sequential_loop_groups rs ls :
  record_lines rs ls ->
  forall rest out,
  sequential_loop (ls ++ rest) out
  = sequential_loop rest (out ++ encode (map rewritten rs))%string.
Proof.
  induction 1 as [|id sq sep ql rs ls Hid Hsep Hrl IH]; intros rest out.
  - cbn [app map encode]. by rewrite append_nil_r.
  - rewrite <- !app_comm_cons. rewrite sequential_loop_group by done.
    rewrite IH. cbn [map encode]. by rewrite append_assoc.
Qed.

(** The sequential loop stops at the first group that breaks a rule, with a
    failed assertion. *)
Lemma sequential_loop_violation r rest out :
  violates r rest -> sequential_loop rest out = Panic AssertionFailed.
Proof.
  destruct 1 as [id c rest H0 Hc|id rest H0 Hs|id Hid|id sq Hid
                |id sq sep c rest Hid Hp Hc|id sq sep Hid Hsep];
    cbn [sequential_loop]; unfold byte_at.
  - rewrite H0. cbn. by destruct (Ascii.eqb_spec c "@").
  - rewrite H0. cbn. by rewrite Hs.
  - pose proof (strip_identifier_total id Hid) as Hk.
    apply valid_identifier_split in Hid as [-> Hs]. cbn. rewrite Hs. cbn.
    unfold strip_identifier in Hk. by rewrite Hk.
  - pose proof (strip_identifier_total id Hid) as Hk.
    apply valid_identifier_split in Hid as [-> Hs]. cbn. rewrite Hs. cbn.
    unfold strip_identifier in Hk. by rewrite Hk.
  - pose proof (strip_identifier_total id Hid) as Hk.
    apply valid_identifier_split in Hid as [-> Hs]. cbn. rewrite Hs. cbn.
    unfold strip_identifier in Hk. rewrite Hk. cbn. rewrite Hp. cbn.
    by destruct (Ascii.eqb_spec c "+").
  - pose proof (strip_identifier_total id Hid) as Hk.
    apply valid_identifier_split in Hid as [-> Hs]. cbn. rewrite Hs. cbn.
    unfold strip_identifier in Hk. rewrite Hk. cbn.
    apply valid_separator_get in Hsep as ->. reflexivity.
Qed.

End Stages.

(** ** The batched source *)

Section Source.

Lemma Fetch_inv s n f s' :
  Fetch s n = Ret (f, s') ->
  sc_err (scanner s') = sc_err (scanner s) /\
  exists rs ls rest,
    sc_lines (scanner s) = ls ++ rest /\ record_lines rs ls /\
    ((length rs = Z.to_nat n /\ f = Z.of_nat (Z.to_nat n) /\
      data s' = Some rs /\ err s' = err s /\ sc_lines (scanner s') = rest)
     \/
     ((length rs < Z.to_nat n)%nat /\ rest = [] /\ sc_err (scanner s) = None /\
      f = Z.of_nat (length rs) /\ data s' = Some rs /\ err s' = None /\
      sc_lines (scanner s') = [])
     \/
     ((length rs < Z.to_nat n)%nat /\ f = 0 /\ data s' = None /\
      exists e, err s' = Some e /\
        ((rest = [] /\ sc_err (scanner s) = Some e) \/
         exists r, violates r rest /\ e = rule_error r))).
Proof.
  unfold Fetch. intros H. apply fetch_loop_inv in H. exact H.
Qed.

(** A call that meets a broken group after [length rs < n] well-formed
    ones. *)
Lemma Fetch_violation rs ls rest r s n :
  sc_lines (scanner s) = ls ++ rest ->
  record_lines rs ls ->
  Z.of_nat (length rs) < n ->
  violates r rest ->
  exists s',
    Fetch s n = Ret (0, s') /\ data s' = None /\
    err s' = Some (rule_error r) /\
    sc_err (scanner s') = sc_err (scanner s).
Proof.
  intros Hl Hrl Hn Hv. destruct s as [[lines text e] d er]. cbn in Hl. subst lines.
  unfold Fetch, set_data. cbn [scanner data err].
  replace (Z.to_nat n) with (length rs + S (Z.to_nat n - length rs - 1))%nat by lia.
  destruct (fetch_loop_groups rs ls Hrl (S (Z.to_nat n - length rs - 1)) 0 [] rest
              text e None er) as [text' ->].
  destruct (fetch_loop_violation r rest Hv (Z.to_nat n - length rs - 1)
              (0 + Z.of_nat (length rs)) ([] ++ rs) text' e None er)
    as (sc' & -> & Hsc).
  eexists. split; [done|]. by cbn.
Qed.

Lemma Fetch_one_group id sq sep ql :
  valid_identifier id = true ->
  valid_separator sep = true ->
  Fetch (newSource [id; sq; sep; ql] None) 1
  = Ret (1, mkSource (mkScanner [] ql None) (Some [mkRecord id sq ql]) None).
Proof.
  intros Hid Hsep. unfold Fetch, newSource, NewScanner, set_data.
  cbn [scanner data err]. change (Z.to_nat 1) with 1%nat.
  by rewrite fetch_loop_group.
Qed.

Lemma record_lines_split rs ls k :
  record_lines rs ls ->
  exists ls1 ls2,
    ls = ls1 ++ ls2 /\ record_lines (take k rs) ls1 /\
    record_lines (drop k rs) ls2.
Proof.
  intros H. revert k. induction H as [|id sq sep ql rs ls Hid Hsep Hrl IH]; intros k.
  - exists [], []. rewrite take_nil, drop_nil. split; [done|]. split; constructor.
  - destruct k as [|k].
    + exists [], (id :: sq :: sep :: ql :: ls). cbn [take drop].
      split; [done|]. split; by constructor.
    + destruct (IH k) as (ls1 & ls2 & -> & H1 & H2).
      exists (id :: sq :: sep :: ql :: ls1), ls2. cbn [take drop].
      split; [done|]. split; [by constructor|done].
Qed.

(** A call on a stream of well-formed groups only. *)
Lemma Fetch_records rs ls s n :
  sc_lines (scanner s) = ls ->
  record_lines rs ls ->
  sc_err (scanner s) = None ->
  0 < n ->
  exists s',
    Fetch s n = Ret (Z.of_nat (length (take (Z.to_nat n) rs)), s') /\
    data s' = Some (take (Z.to_nat n) rs) /\
    err s' = (if decide (Z.to_nat n <= length rs)%nat then err s else None) /\
    sc_err (scanner s') = None /\
    record_lines (drop (Z.to_nat n) rs) (sc_lines (scanner s')).
Proof.
  intros Hl Hrl He Hn. destruct s as [[lines text e] d er].
  cbn in Hl, He. subst lines e.
  destruct (record_lines_split rs ls (Z.to_nat n) Hrl) as (ls1 & ls2 & -> & H1 & H2).
  unfold Fetch, set_data. cbn [scanner data err].
  destruct (decide (Z.to_nat n <= length rs)%nat) as [Hle|Hgt].
  - destruct (fetch_loop_groups _ _ H1 0%nat 0 [] ls2 text None None er)
      as [text' Heq].
    rewrite length_take, Nat.min_l, Nat.add_0_r in Heq by done.
    rewrite Heq. cbn [fetch_loop]. eexists. split.
    { rewrite length_take, Nat.min_l by done. reflexivity. }
    cbn. auto.
  - rewrite take_ge in * by lia. rewrite drop_ge in * by lia.
    inversion H2; subst.
    replace (Z.to_nat n) with (length rs + S (Z.to_nat n - length rs - 1))%nat by lia.
    destruct (fetch_loop_groups _ _ H1 (S (Z.to_nat n - length rs - 1)) 0 [] []
                text None None er) as [text' ->].
    cbn. eexists. split; [done|]. cbn. repeat split; auto.
Qed.

End Source.

(** ** Statements about [Fetch] and [Err] *)

(** C6.  For a batch size [n >= 1]: a call that hands back a batch (its
    [Data()] is a slice [d]) of fewer than [n] records read a stream that
    consisted of exactly the well-formed line groups of [d] and then ended
    without a read error, so the stream ended on a record boundary; a call
    returns zero records with no error exactly when the stream was already
    at its clean end when the call began; and on an empty input the call
    returns zero records and no error. *)
Theorem C6_short_batch_only_at_clean_end (s : source) (n : Z) (Hn : 0 < n) :
  (forall f s' d,
      Fetch s n = Ret (f, s') -> Data s' = Some d ->
      Z.of_nat (length d) < n ->
      record_lines d (sc_lines (scanner s)) /\
      sc_err (scanner s) = None /\
      f = Z.of_nat (length d) /\ Err s' = None /\
      sc_lines (scanner s') = []) /\
  ((exists s', Fetch s n = Ret (0, s') /\ Err s' = None) <->
   (sc_lines (scanner s) = [] /\ sc_err (scanner s) = None)) /\
  (exists s', Fetch (newSource [] None) n = Ret (0, s') /\
              Data s' = Some [] /\ Err s' = None).
Proof.
  split; [|split].
  - intros f s' d HF Hd Hlen. unfold Data, Err in *.
    apply Fetch_inv in HF as (_ & rs & ls & rest & Hl & Hrl & Hc).
    destruct Hc as [(Hfull & _ & Hdat & _)|[(Hlt & -> & He & -> & Hdat & Her & Hls)
                                           |(_ & _ & Hdat & _)]].
    + rewrite Hdat in Hd. injection Hd as <-. lia.
    + rewrite Hdat in Hd. injection Hd as <-.
      rewrite app_nil_r in Hl. by rewrite Hl.
    + congruence.
  - split.
    + intros (s' & HF & Her). unfold Err in Her.
      apply Fetch_inv in HF as (_ & rs & ls & rest & Hl & Hrl & Hc).
      destruct Hc as [(_ & Hf & _)|[(_ & -> & He & Hf & _)|(_ & _ & _ & e & Hse & _)]].
      * lia.
      * destruct rs; [|cbn in Hf; lia]. inversion Hrl; subst. by rewrite Hl.
      * congruence.
    + intros [Hl He]. destruct s as [[lines text e] d er]. cbn in Hl, He. subst.
      unfold Fetch, set_data. cbn [scanner data err].
      destruct (Z.to_nat n) as [|k] eqn:Hk; [lia|]. cbn. eauto.
  - unfold Fetch, newSource, NewScanner, set_data. cbn [scanner data err].
    destruct (Z.to_nat n) as [|k] eqn:Hk; [lia|]. cbn. eauto.
Qed.

Lemma C6_witness :
  record_lines [mkRecord "@a b/1" "ACGT" "!!!!"] ["@a b/1"; "ACGT"; "+x"; "!!!!"] /\
  ~ (exists s',
        Fetch (newSource ["@a b/1"; "ACGT"; "+x"; "!!!!"] None) 2 = Ret (0, s') /\
        Err s' = None).
Proof.
  destruct (C6_short_batch_only_at_clean_end
              (newSource ["@a b/1"; "ACGT"; "+x"; "!!!!"] None) 2 ltac:(lia))
    as (Hshort & Hzero & _).
  split.
  - refine (proj1 (Hshort 1
      (mkSource (mkScanner [] "" None) (Some [mkRecord "@a b/1" "ACGT" "!!!!"]) None)
      [mkRecord "@a b/1" "ACGT" "!!!!"] _ _ _)); [reflexivity|reflexivity|].
    cbn. lia.
  - intros H. apply Hzero in H as [H _]. discriminate H.
Defined.

(** The failure paths [Fetch] has: when a call meets a line group that
    breaks a structural rule with a non-empty offending line, after any
    number [length rs < n] of groups it decoded successfully, it returns
    zero records, [Data()] is nil and [Err()] holds the error of the broken
    rule. *)
Lemma Fetch_no_partial_batch (rs : list record) (ls rest : list string)
    (r : rule) (s : source) (n : Z) :
  sc_lines (scanner s) = ls ++ rest ->
  record_lines rs ls ->
  Z.of_nat (length rs) < n ->
  violates r rest ->
  exists s',
    Fetch s n = Ret (0, s') /\ Data s' = None /\ Err s' = Some (rule_error r).
Proof.
  intros Hl Hrl Hn Hv.
  destruct (Fetch_violation rs ls rest r s n Hl Hrl Hn Hv) as (s' & HF & Hd & He & _).
  by exists s'.
Qed.

(** C7.  [Fetch] does not do what the statement says on every record that
    fails to decode.  With a blank line where the identifier line of the
    second record is due (a stream that ends in an extra empty line), or
    where its separator line is due, the call does not return zero records
    with [Err()] set: indexing the line at 0 (main.go:154, main.go:171)
    panics with index out of range.  On the same stream with a non-empty
    malformed line in that place the call returns 0, [Data()] is nil and
    [Err()] holds the error, as the statement says. *)
Theorem C7_Fetch_panics_on_blank_line :
  Fetch (newSource ["@a b/1"; "ACGT"; "+x"; "!!!!"; ""] None) 5
  = Panic IndexOutOfRange /\
  Fetch (newSource ["@a b/1"; "ACGT"; "+x"; "!!!!"; "@c/2"; "AC"; ""; "!!"] None) 5
  = Panic IndexOutOfRange /\
  Fetch (newSource ["@a b/1"; "ACGT"; "+x"; "!!!!"; "X"] None) 5
  = Ret (0, mkSource (mkScanner [] "X" None) None
              (Some (errorsNew "malformed identifier line, missing initial @ sign"))).
Proof. repeat split; reflexivity. Qed.

Lemma rule_error_inj r1 r2 : rule_error r1 = rule_error r2 -> r1 = r2.
Proof. destruct r1, r2; intros H; (reflexivity || discriminate H). Qed.

(** [Fetch] indexes the identifier line and the separator line before it
    tests them: on an empty line it panics instead of recording an error. *)
Example Fetch_empty_identifier_line :
  Fetch (newSource [""; "ACGT"; "+"; "!!!!"] None) 1 = Panic IndexOutOfRange.
Proof. reflexivity. Qed.

Example Fetch_empty_separator_line :
  Fetch (newSource ["@a b/1"; "ACGT"; ""; "!!!!"] None) 1 = Panic IndexOutOfRange.
Proof. reflexivity. Qed.

(** C5, as stated, fails: the sequential mode signals an identifier line
    without mate suffix by a panic (the failed assertion of main.go:63),
    not by an error result. *)
Lemma C5_counterexample :
  violates MissingSuffix ["@r1 x"; "ACGT"; "+"; "!!!!"] /\
  correctPlatinumFastqSequenceIdentifierSequential
    (NewScanner ["@r1 x"; "ACGT"; "+"; "!!!!"] None) = Panic AssertionFailed.
Proof.
  split; [apply violates_suffix|]; reflexivity.
Qed.

(** C5, amended.  For a line group that breaks a structural rule (with a
    non-empty offending line), met after [length rs < n] well-formed
    groups: [Fetch] returns normally with zero records and [Err()] holds an
    error whose message determines the broken rule; the sequential mode
    panics with a failed assertion on the same lines. *)
Theorem C5_violation_is_error_in_Fetch_and_panic_in_sequential
    (rs : list record) (ls rest : list string) (r : rule) (s : source)
    (n : Z) (out : string) :
  sc_lines (scanner s) = ls ++ rest ->
  record_lines rs ls ->
  Z.of_nat (length rs) < n ->
  violates r rest ->
  (exists s', Fetch s n = Ret (0, s') /\ Err s' = Some (rule_error r)) /\
  (forall r', rule_error r' = rule_error r -> r' = r) /\
  sequential_loop (sc_lines (scanner s)) out = Panic AssertionFailed.
Proof.
  intros Hl Hrl Hn Hv. split; [|split].
  - destruct (Fetch_violation rs ls rest r s n Hl Hrl Hn Hv) as (s' & HF & _ & He & _).
    by exists s'.
  - intros r'. apply rule_error_inj.
  - rewrite Hl, (sequential_loop_groups rs ls Hrl).
    by apply sequential_loop_violation with (r := r).
Qed.

Lemma C5_witness :
  (exists s',
      Fetch (newSource ["@a b/1"; "ACGT"; "+x"; "!!!!"; "@c/2"; "AC"; "-"; "!!"] None) 2
      = Ret (0, s') /\
      Err s' = Some (errorsNew "malformed intermediate line, missing initial + sign")) /\
  sequential_loop ["@a b/1"; "ACGT"; "+x"; "!!!!"; "@c/2"; "AC"; "-"; "!!"] ""
  = Panic AssertionFailed.
Proof.
  destruct (C5_violation_is_error_in_Fetch_and_panic_in_sequential
              [mkRecord "@a b/1" "ACGT" "!!!!"]
              ["@a b/1"; "ACGT"; "+x"; "!!!!"] ["@c/2"; "AC"; "-"; "!!"] BadSeparator
              (newSource ["@a b/1"; "ACGT"; "+x"; "!!!!"; "@c/2"; "AC"; "-"; "!!"] None)
              2 "") as (H1 & _ & H2).
  - reflexivity.
  - constructor; [reflexivity|reflexivity|constructor].
  - cbn. lia.
  - apply violates_separator with (c := "-"%char); [reflexivity|reflexivity|discriminate].
  - split; [exact H1|exact H2].
Defined.

(** C8, as stated, fails: after a call that recorded a decode error, the
    next call finds the scanner at its clean end and stores the scanner's
    nil error over the recorded one (main.go:145). *)
Lemma C8_counterexample :
  exists s1 s2,
    Fetch (newSource ["X"] None) 1 = Ret (0, s1) /\
    Err s1 = Some (errorsNew "malformed identifier line, missing initial @ sign") /\
    Fetch s1 1 = Ret (0, s2) /\
    Err s2 = None.
Proof. do 2 eexists. repeat split; reflexivity. Qed.

Lemma full_run_Err s ops s' :
  full_run s ops s' -> Err s' = Err s.
Proof.
  induction 1 as [s|s n s1 ops s2 HF _ IH|s ops s2 _ IH|s ops s2 _ IH|s ops s2 _ IH];
    try done.
  rewrite IH. unfold Err.
  apply Fetch_inv in HF as (_ & rs & ls & rest & _ & _ & Hc).
  destruct Hc as [(_ & _ & _ & He & _)|[(Hlt & _ & _ & Hf & _)|(Hlt & Hf & _)]];
    [done|lia|lia].
Qed.

(** C8, amended.  Once [Err()] returns a non-nil error, it returns the
    same error after every further sequence of [Err], [Data], [Prepare]
    and [Fetch] calls in which each [Fetch(n)] returns a full batch of [n]
    records. *)
Theorem C8_error_kept_by_full_fetches (s : source) (e : error)
    (ops : list op) (s' : source) :
  Err s = Some e ->
  full_run s ops s' ->
  Err s' = Some e.
Proof.
  intros He Hrun. by rewrite (full_run_Err s ops s' Hrun).
Qed.

Lemma C8_witness :
  Err (mkSource (mkScanner [] "!!" None) (Some [mkRecord "@a/1" "AC" "!!"])
         (Some (errorsNew "malformed identifier line, missing initial @ sign")))
  = Some (errorsNew "malformed identifier line, missing initial @ sign").
Proof.
  apply (C8_error_kept_by_full_fetches
           (mkSource (mkScanner ["@a/1"; "AC"; "+"; "!!"] "X" None) None
              (Some (errorsNew "malformed identifier line, missing initial @ sign")))
           _ [OpErr; OpFetch 1; OpData; OpPrepare]).
  - reflexivity.
  - apply full_run_err. eapply full_run_fetch; [reflexivity|].
    apply full_run_data, full_run_prepare, full_run_nil.
Defined.

(** ** Statements about the identifier rewrite *)

Section Identifier.

Local Open Scope nat_scope.

(** The identifier line is the first of the four lines either mode writes
    for a well-formed group. *)
Lemma identifier_line_written id sq sep ql :
  valid_identifier id = true ->
  valid_separator sep = true ->
  identifier_line id = Ret ("@" ++ kept id)%string /\
  sequential_loop [id; sq; sep; ql] ""
  = Ret (("@" ++ kept id) ++ nl ++ sq ++ nl ++ "+" ++ nl ++ ql ++ nl)%string /\
  parallel_receive [mkRecord id sq ql] = Ret [mkRecord (kept id) sq ql] /\
  ordered_receive [mkRecord (kept id) sq ql] ""
  = (("@" ++ kept id) ++ nl ++ sq ++ nl ++ "+" ++ nl ++ ql ++ nl)%string.
Proof.
  intros Hid Hsep. split; [|split; [|split]].
  - unfold identifier_line. by rewrite (strip_identifier_total id Hid).
  - rewrite sequential_loop_group by done. cbn [sequential_loop].
    unfold record_bytes, rewritten. cbn [identifier sequence qualities].
    by rewrite !append_assoc.
  - rewrite parallel_receive_validated by (by repeat constructor). reflexivity.
  - rewrite ordered_receive_encode. cbn [encode]. unfold record_bytes.
    cbn [identifier sequence qualities]. by rewrite append_nil_r, !append_assoc.
Qed.

(** The kept part of an identifier with a space before its last two
    characters. *)
Lemma kept_middle pre mid suf :
  IndexByte pre " " = (-1)%Z ->
  String.length suf = 2 ->
  kept (pre ++ " " ++ mid ++ suf) = mid.
Proof.
  intros Hpre Hsuf. unfold kept, len.
  change (" " ++ mid ++ suf)%string with (String " " (mid ++ suf)).
  rewrite (IndexByte_app_first pre " " (mid ++ suf) Hpre).
  rewrite length_append. cbn [String.length]. rewrite length_append, Hsuf.
  replace (Z.to_nat (Z.of_nat (String.length pre) + 1))
    with (String.length pre + 1) by lia.
  replace (Z.to_nat _) with (String.length mid) by lia.
  rewrite substring_skip. cbn [substring]. apply substring_prefix.
Qed.

(** The kept part of an identifier without a space. *)
Lemma kept_no_space id :
  IndexByte id " " = (-1)%Z ->
  kept id = substring 0 (String.length id - 2) id.
Proof.
  intros H. unfold kept, len. rewrite H. cbn [Z.add Z.to_nat].
  f_equal. lia.
Qed.

End Identifier.

Section IdentifierStatements.

Local Open Scope nat_scope.

Lemma IndexByte_split s c :
  (0 <= IndexByte s c)%Z ->
  exists pre rest, s = (pre ++ String c rest)%string /\ IndexByte pre c = (-1)%Z.
Proof.
  induction s as [|a s IH]; cbn [IndexByte]; [lia|].
  destruct (Ascii.eqb_spec a c) as [->|Hne].
  - intros _. by exists ""%string, s.
  - destruct (Z.ltb_spec (IndexByte s c) 0) as [Hlt|Hge]; [lia|].
    intros _. destruct (IH Hge) as (pre & rest & -> & Hpre).
    exists (String a pre), rest. split; [done|].
    cbn [IndexByte]. destruct (Ascii.eqb_spec a c); [done|]. by rewrite Hpre.
Qed.

Lemma string_split_at n s :
  n <= String.length s ->
  exists s1 s2, s = (s1 ++ s2)%string /\ String.length s1 = n.
Proof.
  revert s. induction n as [|n IH]; intros s Hn.
  - by exists ""%string, s.
  - destruct s as [|a s]; cbn [String.length] in Hn; [lia|].
    destruct (IH s ltac:(lia)) as (s1 & s2 & -> & Hl).
    exists (String a s1), s2. split; [done|]. cbn [String.length]. by rewrite Hl.
Qed.

(** A validated identifier with a space is a space-free prefix, the space,
    a middle part and a two-character suffix. *)
Lemma valid_identifier_parts id :
  valid_identifier id = true ->
  (0 <= IndexByte id " ")%Z ->
  exists pre mid suf,
    id = (pre ++ " " ++ mid ++ suf)%string /\
    IndexByte pre " " = (-1)%Z /\ String.length suf = 2.
Proof.
  intros Hid Hsp. pose proof (valid_identifier_space id Hid) as Hb.
  destruct (IndexByte_split id " " Hsp) as (pre & rest & -> & Hpre).
  rewrite (IndexByte_app_first pre " " rest Hpre) in Hb.
  unfold len in Hb. rewrite length_append in Hb. cbn [String.length] in Hb.
  destruct (string_split_at (String.length rest - 2) rest ltac:(lia))
    as (mid & suf & -> & Hmid).
  exists pre, mid, suf. split; [done|]. split; [done|].
  rewrite length_append in Hb, Hmid. lia.
Qed.

Lemma accepts_valid line :
  sequential_accepts line = valid_identifier line /\
  parallel_accepts line = valid_identifier line.
Proof.
  unfold sequential_accepts, parallel_accepts.
  destruct (valid_identifier line) eqn:Hid.
  - split.
    + by rewrite sequential_loop_group.
    + by rewrite Fetch_one_group.
  - unfold valid_identifier in Hid. unfold Fetch, newSource, NewScanner, set_data.
    cbn [scanner data err]. change (Z.to_nat 1) with 1%nat.
    cbn [sequential_loop fetch_loop Scan sc_lines sc_err sc_text Text negb scanner].
    unfold byte_at. destruct (String.get 0 line) as [c|]; [|done]. cbn.
    destruct (Ascii.eqb c "@"); [|done]. cbn in Hid |- *. by rewrite Hid.
Qed.

(** C3.  For a line group accepted by the validation: when the identifier
    has a space it is a space-free prefix, the first space, a middle part
    and a two-character suffix, and the rewrite keeps exactly the middle
    part; whenever it is written so, the middle part is what is kept;
    without a space nothing is discarded in front.  The identifier line
    written is '@' followed by the kept part, and the third output line of
    either mode is the single character '+', whatever the separator line
    of the input was. *)
Theorem C3_identifier_and_separator_rewrite (id sq sep ql : string) :
  valid_identifier id = true ->
  valid_separator sep = true ->
  ((0 <= IndexByte id " ")%Z ->
   exists pre mid suf,
     id = (pre ++ " " ++ mid ++ suf)%string /\
     IndexByte pre " " = (-1)%Z /\ String.length suf = 2 /\
     strip_identifier id = Ret mid) /\
  (forall pre mid suf,
     id = (pre ++ " " ++ mid ++ suf)%string ->
     IndexByte pre " " = (-1)%Z -> String.length suf = 2 ->
     strip_identifier id = Ret mid) /\
  (IndexByte id " " = (-1)%Z ->
   strip_identifier id = Ret (substring 0 (String.length id - 2) id)) /\
  exists k,
    strip_identifier id = Ret k /\
    sequential_loop [id; sq; sep; ql] ""
    = Ret (("@" ++ k) ++ nl ++ sq ++ nl ++ "+" ++ nl ++ ql ++ nl)%string /\
    (exists s',
        Fetch (newSource [id; sq; sep; ql] None) 1 = Ret (1%Z, s') /\
        Data s' = Some [mkRecord id sq ql]) /\
    parallel_receive [mkRecord id sq ql] = Ret [mkRecord k sq ql] /\
    ordered_receive [mkRecord k sq ql] ""
    = (("@" ++ k) ++ nl ++ sq ++ nl ++ "+" ++ nl ++ ql ++ nl)%string.
Proof.
  intros Hid Hsep. pose proof (strip_identifier_total id Hid) as Hk.
  split; [|split; [|split]].
  - intros Hsp.
    destruct (valid_identifier_parts id Hid Hsp) as (pre & mid & suf & E & Hpre & Hsuf).
    exists pre, mid, suf. repeat (split; [done|]).
    rewrite Hk. f_equal. rewrite E. by apply kept_middle.
  - intros pre mid suf E Hpre Hsuf. rewrite Hk. f_equal. rewrite E.
    by apply kept_middle.
  - intros Hno. rewrite Hk. f_equal. by apply kept_no_space.
  - exists (kept id).
    destruct (identifier_line_written id sq sep ql Hid Hsep) as (_ & Hseq & Hpar & Hord).
    split; [done|]. split; [done|]. split; [|by split].
    rewrite Fetch_one_group by done. eauto.
Qed.

Lemma C3_witness :
  strip_identifier "@ERR194147.1 HSQ1004:134:C0D8DACXX:1:1104:3874:86238/1"
  = Ret "HSQ1004:134:C0D8DACXX:1:1104:3874:86238"%string.
Proof.
  refine (proj1 (proj2 (C3_identifier_and_separator_rewrite
            "@ERR194147.1 HSQ1004:134:C0D8DACXX:1:1104:3874:86238/1" "ACGT"
            "+ERR194147.1 HSQ1004:134:C0D8DACXX:1:1104:3874:86238/1" "!!!!" _ _))
          "@ERR194147.1" "HSQ1004:134:C0D8DACXX:1:1104:3874:86238" "/1" _ _ _);
    reflexivity.
Defined.

(** C4, as stated, fails: the rewrite removes exactly the last two
    characters, so the space in front of the mate suffix is kept. *)
Lemma C4_counterexample :
  identifier_line "@X token /1" <> Ret "@token"%string /\
  identifier_line "@Y other-token /2" <> Ret "@other-token"%string.
Proof. split; intros H; vm_compute in H; discriminate H. Qed.

(** C4, amended.  The identifier line written for "@X token /1" is
    "@token " and the one written for "@Y other-token /2" is
    "@other-token ", each ending in the space that preceded the mate
    suffix; both modes write these lines. *)
Theorem C4_identifier_examples :
  identifier_line "@X token /1" = Ret "@token "%string /\
  identifier_line "@Y other-token /2" = Ret "@other-token "%string /\
  sequential_loop ["@X token /1"; "ACGT"; "+"; "!!!!"] ""
  = Ret ("@token " ++ nl ++ "ACGT" ++ nl ++ "+" ++ nl ++ "!!!!" ++ nl)%string /\
  parallel_receive [mkRecord "@Y other-token /2" "ACGT" "!!!!"]
  = Ret [mkRecord "other-token " "ACGT" "!!!!"] /\
  ordered_receive [mkRecord "other-token " "ACGT" "!!!!"] ""
  = ("@other-token " ++ nl ++ "ACGT" ++ nl ++ "+" ++ nl ++ "!!!!" ++ nl)%string.
Proof. repeat split; reflexivity. Qed.

(** C9, as stated, fails: the sequential mode does verify the mate suffix
    (the assertion of main.go:63 fails on an identifier without it), and no
    identifier line is accepted by one mode and rejected by the other. *)
Lemma C9_counterexample :
  sequential_loop ["@X token"; "ACGT"; "+"; "!!!!"] "" = Panic AssertionFailed /\
  sequential_accepts "@X token" = false /\
  ~ (exists line, sequential_accepts line <> parallel_accepts line).
Proof.
  split; [reflexivity|]. split; [reflexivity|].
  intros [line H]. destruct (accepts_valid line) as [H1 H2]. congruence.
Qed.

(** C9, amended.  Both modes apply the same validation to an identifier
    line: each accepts it exactly when it begins with '@' and ends in "/1"
    or "/2"; the two modes accept the same set of identifier lines. *)
Theorem C9_same_identifier_validation (line : string) :
  sequential_accepts line = parallel_accepts line /\
  (sequential_accepts line = true <->
   String.get 0 line = Some "@"%char /\
   (HasSuffix line "/1" = true \/ HasSuffix line "/2" = true)) /\
  (parallel_accepts line = true <->
   String.get 0 line = Some "@"%char /\
   (HasSuffix line "/1" = true \/ HasSuffix line "/2" = true)).
Proof.
  destruct (accepts_valid line) as [-> ->].
  assert (valid_identifier line = true <->
          String.get 0 line = Some "@"%char /\
          (HasSuffix line "/1" = true \/ HasSuffix line "/2" = true)) as Hiff.
  { split.
    - intros [H0 Hs]%valid_identifier_split. by apply orb_true_iff in Hs.
    - intros [H0 Hs]. apply valid_identifier_join; [done|]. by apply orb_true_iff. }
  by repeat split; try apply Hiff.
Qed.

(** C10.  For an identifier that passes the validation: it has at least
    three characters, its last two characters are not spaces, the bounds
    [IndexByte + 1] and [len - 2] of the slice satisfy
    [0 <= lo <= hi <= len], so the slice expression returns and the stage
    function returns on every record carrying the identifier; without a
    space the kept part starts at index 0 with the '@', and the identifier
    line written begins with "@@". *)
Theorem C10_strip_in_bounds (id : string) :
  valid_identifier id = true ->
  3 <= String.length id /\
  String.get (String.length id - 2) id <> Some " "%char /\
  String.get (String.length id - 1) id <> Some " "%char /\
  (0 <= IndexByte id " " + 1 <= len id - 2)%Z /\
  (len id - 2 <= len id)%Z /\
  (exists k, strip_identifier id = Ret k) /\
  (forall sq ql, exists r', parallel_receive [mkRecord id sq ql] = Ret [r']) /\
  (IndexByte id " " = (-1)%Z ->
   exists t,
     strip_identifier id = Ret (String "@" t) /\
     identifier_line id = Ret (String "@" (String "@" t))).
Proof.
  intros Hid.
  pose proof (valid_identifier_shape id Hid) as (H0 & Hlen & Hs & Hd).
  pose proof (valid_identifier_space id Hid) as Hb.
  pose proof (strip_identifier_total id Hid) as Hk.
  split; [done|]. split; [congruence|]. split; [destruct Hd; congruence|].
  split; [done|]. split; [lia|]. split; [eauto|]. split.
  - intros sq ql. eexists.
    by rewrite parallel_receive_validated by (by repeat constructor).
  - intros Hno. rewrite (kept_no_space id Hno) in Hk.
    destruct id as [|a tl]; [done|]. cbn in H0. injection H0 as ->.
    cbn [String.length] in *.
    replace (S (String.length tl) - 2) with (S (String.length tl - 2)) in Hk by lia.
    rewrite substring_head in Hk.
    eexists. split; [exact Hk|]. unfold identifier_line. by rewrite Hk.
Qed.

Lemma C10_witness :
  exists t,
    strip_identifier "@read7/2" = Ret (String "@" t) /\
    identifier_line "@read7/2" = Ret (String "@" (String "@" t)).
Proof.
  refine (proj2 (proj2 (proj2 (proj2 (proj2 (proj2 (proj2
            (C10_strip_in_bounds "@read7/2" _))))))) _); reflexivity.
Defined.

End IdentifierStatements.

(** ** The pipeline engine: order of delivery *)

Section PipelineOrder.

Local Open Scope nat_scope.

Context {A : Type}.
Variable transform : A -> result A.
Variable W : nat.
Variable bs : list A.

Lemma number_lookup (l : list A) from i :
  number from l !! i = (fun a => (from + i, a)) <$> l !! i.
Proof.
  revert from i. induction l as [|a l IH]; intros from i; [done|].
  destruct i as [|i]; cbn.
  - by rewrite Nat.add_0_r.
  - rewrite IH. by replace (S from + i) with (from + S i) by lia.
Qed.

Lemma number_length (l : list A) from : length (number from l) = length l.
Proof. revert from. induction l as [|a l IH]; intros from; cbn; auto. Qed.

Lemma number_fst (l : list A) from : (number from l).*1 = seq from (length l).
Proof. revert from. induction l as [|a l IH]; intros from; cbn; [done|]. by rewrite IH. Qed.

Lemma number_snd (l : list A) from : (number from l).*2 = l.
Proof. revert from. induction l as [|a l IH]; intros from; cbn; [done|]. by rewrite IH. Qed.

Local Abbreviation delivers := (delivers transform).
Local Abbreviation sink_inv := (sink_inv transform bs).
Local Abbreviation engine_inv := (engine_inv transform bs).

Lemma drain_inv d fl rounds :
  forall k, sink_inv d fl k -> size (buffer k) <= rounds ->
  sink_inv d fl (drain rounds k) /\ drained (drain rounds k).
Proof.
  induction rounds as [|rounds IH]; intros k Hk Hsize.
  - split; [done|]. unfold drained. cbn.
    assert (buffer k = ∅) as -> by (apply map_size_empty_inv; lia). done.
  - cbn [drain]. destruct (buffer k !! expected k) as [a|] eqn:HE; [|done].
    destruct Hk as [Hb Hd Hfl Hnd Hdj Hbuf Hcov].
    destruct (Hbuf _ _ HE) as (HEd & a0 & Ha0 & Htr).
    apply IH.
    + constructor; cbn [expected buffer delivered].
      * lia.
      * rewrite (take_S_r _ _ (expected k, a0)).
        2:{ rewrite number_lookup, Ha0. done. }
        apply Forall2_app; [done|]. repeat constructor. done.
      * intros b Hin. destruct (Hfl b Hin) as [Hr Hl]. split; [|done].
        destruct (decide (b.1 = expected k)) as [E|]; [|lia].
        rewrite <- E, (Hdj b Hin) in HE. done.
      * done.
      * intros b Hin. apply lookup_delete_None. auto.
      * intros i v [Hne Hi]%lookup_delete_Some.
        destruct (Hbuf i v Hi) as [Hr Hx]. split; [lia|done].
      * intros i Hi. destruct (Hcov i ltac:(lia)) as [Hin|[v Hv]]; [by left|].
        right. exists v. apply lookup_delete_Some. split; [lia|done].
    + cbn [buffer]. rewrite map_size_delete_Some by eauto. lia.
Qed.

Lemma inflight_remove (fl1 fl2 : list (batch (A := A))) b :
  NoDup (fl1 ++ b :: fl2).*1 ->
  NoDup (fl1 ++ fl2).*1 /\ forall b', b' ∈ fl1 ++ fl2 -> b'.1 <> b.1.
Proof.
  rewrite !fmap_app, fmap_cons. intros Hnd.
  apply NoDup_app in Hnd as (H1 & H12 & H2).
  apply NoDup_cons in H2 as [Hb H2]. split.
  - apply NoDup_app. repeat split; [done| |done].
    intros x Hx Hx2. apply (H12 x Hx). by right.
  - intros b' [Hin|Hin]%elem_of_app E.
    + apply (H12 b'.1); [by apply list_elem_of_fmap_2|]. rewrite E. by left.
    + apply Hb. rewrite <- E. by apply list_elem_of_fmap_2.
Qed.

Lemma arrive_inv d fl1 b fl2 a' k :
  sink_inv d (fl1 ++ b :: fl2) k -> drained k ->
  transform b.2 = Ret a' ->
  sink_inv d (fl1 ++ fl2) (arrive (b.1, a') k) /\
  drained (arrive (b.1, a') k).
Proof.
  intros [Hb Hd Hfl Hnd Hdj Hbuf Hcov] Hdr Htr.
  destruct (inflight_remove _ _ _ Hnd) as [Hnd' Hne].
  assert (b ∈ fl1 ++ b :: fl2) as Hbin by (apply elem_of_app; right; by left).
  assert (forall b', b' ∈ fl1 ++ fl2 -> b' ∈ fl1 ++ b :: fl2) as Hsub.
  { intros b' [?|?]%elem_of_app; apply elem_of_app; [by left|right; by right]. }
  destruct (Hfl b Hbin) as [Hbr Hbl].
  unfold arrive. cbn [fst snd]. destruct (decide (b.1 = expected k)) as [E|NE].
  - apply drain_inv; [|done].
    constructor; cbn [expected buffer delivered].
    + lia.
    + rewrite (take_S_r _ _ (expected k, b.2)).
      2:{ rewrite number_lookup, <- E, Hbl. cbn. by rewrite E. }
      apply Forall2_app; [done|]. repeat constructor; cbn; done.
    + intros b' Hin. destruct (Hfl b' (Hsub b' Hin)) as [Hr Hl]. split; [|done].
      specialize (Hne b' Hin). lia.
    + done.
    + intros b' Hin. auto.
    + intros i v Hi. destruct (Hbuf i v Hi) as [Hr Hx]. split; [|done].
      destruct (decide (i = expected k)) as [->|]; [|lia].
      unfold drained in Hdr. congruence.
    + intros i Hi. destruct (Hcov i ltac:(lia)) as [Hin|Hin]; [|by right].
      left. apply list_elem_of_fmap in Hin as (b' & -> & Hin).
      apply list_elem_of_fmap_2.
      apply elem_of_app in Hin as [Hin|Hin]; [apply elem_of_app; by left|].
      apply elem_of_cons in Hin as [->|Hin]; [lia|apply elem_of_app; by right].
  - split.
    + constructor; cbn [expected buffer delivered].
      * done.
      * done.
      * intros b' Hin. auto.
      * done.
      * intros b' Hin. rewrite lookup_insert_ne by (specialize (Hne b' Hin); done).
        auto.
      * intros i v [[<- <-]|[Hni Hi]]%lookup_insert_Some; [|by apply Hbuf].
        split; [lia|eauto].
      * intros i Hi. destruct (decide (i = b.1)) as [->|Hnb].
        { right. rewrite lookup_insert_eq. eauto. }
        destruct (Hcov i Hi) as [Hin|Hin].
        -- left. apply list_elem_of_fmap in Hin as (b' & -> & Hin).
           apply list_elem_of_fmap_2.
           apply elem_of_app in Hin as [Hin|Hin]; [apply elem_of_app; by left|].
           apply elem_of_cons in Hin as [->|Hin]; [done|apply elem_of_app; by right].
        -- right. by rewrite lookup_insert_ne.
    + unfold drained in *. cbn [expected buffer]. by rewrite lookup_insert_ne.
Qed.

Lemma dispatch_inv d b rest fl k :
  drop d (number 0 bs) = b :: rest ->
  sink_inv d fl k ->
  rest = drop (S d) (number 0 bs) /\ sink_inv (S d) (fl ++ [b]) k.
Proof.
  intros Hdrop [Hb Hd Hfl Hnd Hdj Hbuf Hcov].
  assert (number 0 bs !! d = Some b) as Hlk.
  { rewrite <- (Nat.add_0_r d), <- lookup_drop, Hdrop. done. }
  rewrite (drop_S _ _ _ Hlk) in Hdrop. injection Hdrop as <-.
  split; [done|].
  rewrite number_lookup in Hlk.
  destruct (bs !! d) as [a|] eqn:Ha; [|done]. cbn in Hlk. injection Hlk as <-.
  apply lookup_lt_Some in Ha as Hlt.
  constructor.
  - lia.
  - done.
  - intros b' [Hin| ->%list_elem_of_singleton]%elem_of_app.
    + destruct (Hfl b' Hin). split; [lia|done].
    + cbn. split; [lia|done].
  - rewrite fmap_app. apply NoDup_app. repeat split; [done| |apply NoDup_singleton].
    intros x Hx ->%list_elem_of_singleton.
    apply list_elem_of_fmap in Hx as (b' & E & Hin). destruct (Hfl b' Hin). cbn in E. lia.
  - intros b' [Hin| ->%list_elem_of_singleton]%elem_of_app; [auto|].
    cbn. destruct (buffer k !! d) as [v|] eqn:Hv; [|done].
    destruct (Hbuf d v Hv). lia.
  - intros i v Hi. destruct (Hbuf i v Hi) as [Hr Hx]. split; [lia|done].
  - intros i Hi. destruct (decide (i = d)) as [->|].
    + left. rewrite fmap_app. apply elem_of_app. right. cbn. by left.
    + destruct (Hcov i ltac:(lia)) as [Hin|Hin]; [|by right].
      left. rewrite fmap_app. apply elem_of_app. by left.
Qed.


(** Every batch of [bs] can be transformed. *)
Hypothesis transform_returns :
  forall a, a ∈ bs -> exists a', transform a = Ret a'.

Lemma start_inv :
  engine_inv (mkEngine (number 0 bs) [] (mkSink 0 ∅ [])).
Proof.
  exists 0. split; [done|]. split; [|done].
  constructor; cbn [snk inflight expected buffer delivered].
  - lia.
  - constructor.
  - intros b Hin. by apply elem_of_nil in Hin.
  - constructor.
  - done.
  - intros i v Hi. by rewrite lookup_empty in Hi.
  - intros i Hi. lia.
Qed.

(** No interleaving leaves the invariant, and no batch is lost to a
    failing transform. *)
Lemma reachable_inv st :
  rtc (step transform W) (start bs) st ->
  exists e, st = Running e /\ engine_inv e.
Proof.
  revert st. apply rtc_ind_r.
  - eexists. split; [done|]. apply start_inv.
  - intros st st' Hrun Hstep IH.
    destruct IH as (e & -> & d & Hpd & Hinv & Hdr).
    inversion Hstep as [b rest fl k HW|pd fl1 b fl2 a' k Htr|pd fl1 b fl2 p k Htr];
      subst; cbn [pending inflight snk] in *.
    + eexists. split; [done|].
      destruct (dispatch_inv d b rest fl k (eq_sym Hpd) Hinv) as [-> Hinv'].
      exists (S d). by cbn.
    + eexists. split; [done|].
      destruct (arrive_inv d fl1 b fl2 a' k Hinv Hdr Htr) as [Hinv' Hdr'].
      exists d. by cbn.
    + exfalso.
      destruct (si_inflight _ _ _ _ _ Hinv b) as [_ Hl].
      { apply elem_of_app. right. by left. }
      destruct (transform_returns b.2) as [a' Ha'].
      { by eapply list_elem_of_lookup_2. }
      congruence.
Qed.

Lemma delivers_number (l : list A) from ds :
  Forall2 delivers (number from l) ds ->
  ds.*1 = seq from (length l) /\
  Forall2 (fun a v => transform a = Ret v) l ds.*2.
Proof.
  revert from ds. induction l as [|a l IH]; intros from ds Hds; cbn in Hds.
  - inversion Hds; subst. split; [done|constructor].
  - inversion Hds as [|b v bs' ds' [Hv1 Hv2] Hrest]; subst.
    destruct (IH _ _ Hrest) as [E1 E2]. cbn in Hv1, Hv2. split.
    + cbn. by rewrite Hv1, E1.
    + cbn. by constructor.
Qed.

(** When the run is over, the sink has delivered every batch, in the order
    of the sequence numbers, and its buffer is empty. *)
Lemma finished_delivered st :
  rtc (step transform W) (start bs) st ->
  finished st ->
  (delivered_of st).*1 = seq 0 (length bs) /\
  Forall2 (fun a v => transform a = Ret v) bs (delivered_of st).*2 /\
  buffer_of st = ∅.
Proof.
  intros Hrun Hfin.
  destruct (reachable_inv st Hrun) as (e & -> & d & Hpd & Hinv & Hdr).
  destruct Hfin as [Hp Hf]. cbn [delivered_of buffer_of].
  destruct Hinv as [Hb Hd Hfl Hnd Hdj Hbuf Hcov].
  rewrite Hp in Hpd. symmetry in Hpd. apply drop_nil_inv in Hpd.
  rewrite number_length in Hpd.
  assert (expected (snk e) = length bs) as HE.
  { destruct (decide (expected (snk e) = length bs)) as [|NE]; [done|].
    destruct (Hcov (expected (snk e)) ltac:(lia)) as [Hin|[v Hv]].
    - rewrite Hf in Hin. by apply elem_of_nil in Hin.
    - unfold drained in Hdr. congruence. }
  rewrite HE, take_ge in Hd by (rewrite number_length; lia).
  destruct (delivers_number _ _ _ Hd) as [E1 E2].
  split; [done|]. split; [done|].
  apply map_empty. intros i. destruct (buffer (snk e) !! i) as [v|] eqn:Hv; [|done].
  destruct (Hbuf i v Hv). lia.
Qed.

End PipelineOrder.

Section PipelineRuns.

Local Open Scope nat_scope.

Context {A : Type}.
Variable transform : A -> result A.
Variable W : nat.

(** With at least one worker the engine can always finish: dispatch the
    next batch, let its worker finish, and repeat. *)
Lemma run_to_end (pd : list (batch (A := A))) :
  1 <= W ->
  (forall b, b ∈ pd -> exists a', transform b.2 = Ret a') ->
  forall k, exists k',
    rtc (step transform W) (Running (mkEngine pd [] k))
                           (Running (mkEngine [] [] k')).
Proof.
  intros HW. induction pd as [|b pd IH]; intros Hret k.
  - by exists k.
  - destruct (Hret b) as [a' Ha']; [by left|].
    destruct (IH (fun b' Hin => Hret b' (list_elem_of_further _ _ _ Hin))
                 (arrive (b.1, a') k)) as [k' Hk'].
    exists k'.
    eapply rtc_l; [apply (step_dispatch transform W b pd [] k); cbn; lia|].
    eapply rtc_l; [apply (step_complete transform W pd [] b [] a' k Ha')|].
    exact Hk'.
Qed.

(** A running engine that has not finished can take a step. *)
Lemma step_progress (e : engine (A := A)) :
  1 <= W -> ~ finished (Running e) ->
  exists st', step transform W (Running e) st'.
Proof.
  intros HW Hnf. destruct e as [pd fl k]. destruct fl as [|b fl].
  - destruct pd as [|b pd]; [by destruct Hnf|].
    eexists. apply step_dispatch. cbn. lia.
  - destruct (transform b.2) as [a'|p] eqn:Htr.
    + eexists. by apply (step_complete transform W pd [] b fl a' k).
    + eexists. by apply (step_fail transform W pd [] b fl p k).
Qed.

(** Every step uses up a dispatch or an in-flight batch, so no run goes on
    for ever. *)
Lemma step_work_left st st' :
  step transform W st st' -> work_left st' < work_left st.
Proof.
  destruct 1; cbn [work_left pending inflight]; rewrite ?length_app; cbn [length]; lia.
Qed.

End PipelineRuns.

(** ** The fetch loop of the driver *)

Section Driver.

Local Open Scope nat_scope.

Lemma record_lines_app rs1 ls1 rs2 ls2 :
  record_lines rs1 ls1 -> record_lines rs2 ls2 ->
  record_lines (rs1 ++ rs2) (ls1 ++ ls2).
Proof.
  induction 1; intros H2; cbn [app]; [done|]. constructor; auto.
Qed.

Lemma record_lines_inj rs1 rs2 ls :
  record_lines rs1 ls -> record_lines rs2 ls -> rs1 = rs2.
Proof.
  intros H. revert rs2. induction H as [|id sq sep ql rs ls _ _ _ IH]; intros rs2 H2.
  - by inversion H2.
  - inversion H2; subst. f_equal. by apply IH.
Qed.

(** The batches the driver gets are validated and non-empty. *)
Lemma fetch_batches_validated n fuel :
  forall s bss s',
  fetch_batches fuel n s = Ret (bss, s') ->
  Forall (Forall validated) bss.
Proof.
  induction fuel as [|fuel IH]; intros s bss s' Hrun; cbn [fetch_batches] in Hrun.
  - injection Hrun as <- <-. constructor.
  - destruct (Fetch s n) as [[f s1]|] eqn:HF; [|done]. cbn in Hrun.
    destruct (f =? 0)%Z; [injection Hrun as <- <-; constructor|].
    destruct (Data s1) as [d|] eqn:Hd; [|injection Hrun as <- <-; constructor].
    destruct (fetch_batches fuel n s1) as [[bs s2]|] eqn:Hrec; [|done].
    cbn in Hrun. injection Hrun as <- <-. constructor; [|by eapply IH].
    apply Fetch_inv in HF as (_ & rs & ls & rest & _ & Hrl & Hc). unfold Data in Hd.
    assert (d = rs) as ->.
    { destruct Hc as [(_ & _ & Hdat & _)|[(_ & _ & _ & _ & Hdat & _)|(_ & _ & Hdat & _)]];
        congruence. }
    by eapply record_lines_validated.
Qed.

(** A fetch loop that ends without error has read a stream of well-formed
    groups, the groups of the records of its batches, in order. *)
Lemma fetch_batches_clean n fuel :
  (0 < n)%Z ->
  forall s bss s',
  length (sc_lines (scanner s)) < fuel ->
  fetch_batches fuel n s = Ret (bss, s') ->
  Err s' = None ->
  record_lines (concat bss) (sc_lines (scanner s)) /\
  sc_err (scanner s) = None.
Proof.
  intros Hn. induction fuel as [|fuel IH]; intros s bss s' Hfuel Hrun Herr; [lia|].
  cbn [fetch_batches] in Hrun.
  destruct (Fetch s n) as [[f s1]|] eqn:HF; [|done]. cbn in Hrun.
  apply Fetch_inv in HF as (Hse & rs & ls & rest & Hl & Hrl & Hc).
  pose proof (record_lines_length rs ls Hrl) as Hlen.
  destruct (Z.eqb_spec f 0) as [->|Hf].
  - injection Hrun as <- <-. unfold Err in Herr.
    destruct Hc as [(_ & Hf & _)|[(_ & -> & He & Hf & _)|(_ & _ & _ & e & Hse' & _)]].
    + lia.
    + destruct rs; [|cbn in Hf; lia]. inversion Hrl; subst. rewrite Hl. cbn.
      split; [constructor|done].
    + congruence.
  - unfold Data in Hrun.
    destruct Hc as [(Hfull & _ & Hdat & _ & Hls)|[(_ & -> & He & Hf' & Hdat & _ & Hls)
                                              |(_ & Hf' & _)]]; [| |done].
    + rewrite Hdat in Hrun.
      destruct (fetch_batches fuel n s1) as [[bs s2]|] eqn:Hrec; [|done].
      cbn in Hrun. injection Hrun as <- <-.
      rewrite Hl, length_app in Hfuel.
      destruct (IH s1 bs s2) as [Hrec1 Hrec2]; [rewrite Hls; lia|done|done|].
      rewrite Hls in Hrec1. rewrite Hl. cbn [concat]. split.
      * by apply record_lines_app.
      * congruence.
    + rewrite Hdat in Hrun.
      destruct (fetch_batches fuel n s1) as [[bs s2]|] eqn:Hrec; [|done].
      cbn in Hrun. injection Hrun as <- <-.
      rewrite Hl, length_app in Hfuel.
      destruct (IH s1 bs s2) as [Hrec1 Hrec2]; [rewrite Hls; cbn; lia|done|done|].
      rewrite Hls in Hrec1. rewrite Hl. cbn [concat]. split; [|done].
      by apply record_lines_app.
Qed.

(** On a stream of well-formed groups the fetch loop ends without error,
    with enough fuel left. *)
Lemma fetch_batches_records n fuel :
  (0 < n)%Z ->
  forall rs ls s,
  sc_lines (scanner s) = ls ->
  record_lines rs ls ->
  sc_err (scanner s) = None ->
  length rs < fuel ->
  exists bss s',
    fetch_batches fuel n s = Ret (bss, s') /\ Err s' = None /\
    concat bss = rs.
Proof.
  intros Hn. induction fuel as [|fuel IH]; intros rs ls s Hl Hrl He Hfuel; [lia|].
  destruct (Fetch_records rs ls s n Hl Hrl He Hn) as (s1 & HF & Hdat & Her & Hse & Hdrop).
  cbn [fetch_batches]. rewrite HF. cbn.
  destruct rs as [|r rs].
  - rewrite take_nil. cbn. exists [], s1. split; [done|]. split; [|done].
    unfold Err. rewrite Her. rewrite decide_False; [done|]. cbn. lia.
  - destruct (Z.eqb_spec (Z.of_nat (length (take (Z.to_nat n) (r :: rs)))) 0) as [E|_].
    { rewrite length_take in E. cbn [length] in E. lia. }
    unfold Data. rewrite Hdat.
    destruct (IH (drop (Z.to_nat n) (r :: rs)) _ s1 eq_refl Hdrop Hse)
      as (bs & s2 & Hrec & Herr2 & Hcat).
    { rewrite length_drop. cbn [length] in *. lia. }
    rewrite Hrec. cbn. exists (take (Z.to_nat n) (r :: rs) :: bs), s2.
    split; [done|]. split; [done|]. cbn [concat]. rewrite Hcat. apply take_drop.
Qed.

Lemma written_encode (ds : list (nat * list record)) :
  written ds = encode (concat ds.*2).
Proof.
  unfold written.
  assert (forall out, foldl (fun out b => ordered_receive b.2 out) out ds
                      = (out ++ encode (concat ds.*2))%string) as H.
  { induction ds as [|b ds IH]; intros out; cbn [foldl fmap list_fmap concat].
    - cbn. by rewrite append_nil_r.
    - rewrite IH, ordered_receive_encode, encode_app. by rewrite append_assoc. }
  by rewrite H.
Qed.

Lemma parallel_receive_batches (bss dss : list (list record)) :
  Forall (Forall validated) bss ->
  Forall2 (fun b d => parallel_receive b = Ret d) bss dss ->
  concat dss = map rewritten (concat bss).
Proof.
  intros Hv H. induction H as [|b d bss dss Hbd _ IH]; [done|].
  inversion Hv as [|? ? Hb Hbs]; subst. cbn [concat].
  rewrite map_app, IH by done. f_equal.
  rewrite parallel_receive_validated in Hbd by done. congruence.
Qed.

End Driver.

(** ** Statements about the parallel mode *)

Section ParallelMode.

Local Open Scope nat_scope.

Lemma check_nil e : check e = Ret tt <-> e = None.
Proof. destruct e; cbn; split; congruence. Qed.

Lemma batches_transform (bss : list (list record)) :
  Forall (Forall validated) bss ->
  forall b, b ∈ bss -> exists d, parallel_receive b = Ret d.
Proof.
  intros Hv b Hin. rewrite Forall_forall in Hv.
  eexists. apply parallel_receive_validated. by apply Hv.
Qed.

Lemma run_exists W (bss : list (list record)) :
  1 <= W -> Forall (Forall validated) bss ->
  exists st, rtc (step parallel_receive W) (start bss) st /\ finished st.
Proof.
  intros HW Hv.
  destruct (run_to_end parallel_receive W (number 0 bss) HW) with (k := mkSink (A := list record) 0 ∅ [])
    as [k' Hk'].
  - intros b Hin. apply (batches_transform bss Hv).
    rewrite <- (number_snd bss 0). by apply list_elem_of_fmap_2.
  - exists (Running (mkEngine [] [] k')). by split.
Qed.

(** What any complete run over the batches of a clean source loop writes. *)
Lemma run_written W n lines e0 bss s' st :
  (0 < n)%Z ->
  source_batches n (newSource lines e0) = Ret (bss, s') ->
  Err s' = None ->
  rtc (step parallel_receive W) (start bss) st ->
  finished st ->
  record_lines (concat bss) lines /\
  written (delivered_of st) = encode (map rewritten (concat bss)).
Proof.
  intros Hn Hsrc Herr Hrun Hfin. unfold source_batches in Hsrc.
  pose proof (fetch_batches_validated _ _ _ _ _ Hsrc) as Hv.
  destruct (fetch_batches_clean n (S (length (sc_lines (scanner (newSource lines e0)))))
              Hn (newSource lines e0) bss s') as [Hrl _]; [lia|done|done|].
  split; [done|].
  destruct (finished_delivered parallel_receive W bss (batches_transform bss Hv) st Hrun Hfin)
    as (_ & Hd & _).
  rewrite written_encode. f_equal. by apply parallel_receive_batches.
Qed.

(** The parallel mode can run to its end on well-formed input, and then has
    written the rewritten records in input order. *)
Lemma parallel_run_records W n rs lines :
  1 <= W -> (0 < n)%Z -> record_lines rs lines ->
  parallel_run W n lines (encode (map rewritten rs)).
Proof.
  intros HW Hn Hrl.
  destruct (fetch_batches_records n (S (length lines)) Hn rs lines
              (newSource lines None) eq_refl Hrl eq_refl)
    as (bss & s' & Hsrc & Herr & Hcat).
  { rewrite (record_lines_length rs lines Hrl). lia. }
  destruct (run_exists W bss HW (fetch_batches_validated _ _ _ _ _ Hsrc)) as (st & Hrun & Hfin).
  exists bss, s', st. split; [done|]. split; [by apply check_nil|].
  repeat (split; [done|]).
  destruct (run_written W n lines None bss s' st Hn Hsrc Herr Hrun Hfin) as [_ ->].
  by rewrite Hcat.
Qed.

Lemma parallel_run_written W n rs lines out :
  (0 < n)%Z -> record_lines rs lines ->
  parallel_run W n lines out -> out = encode (map rewritten rs).
Proof.
  intros Hn Hrl (bss & s' & st & Hsrc & Herr%check_nil & Hrun & Hfin & ->).
  destruct (run_written W n lines None bss s' st Hn Hsrc Herr Hrun Hfin) as [Hrl' ->].
  by rewrite (record_lines_inj _ _ _ Hrl' Hrl).
Qed.

(** Two workers, the second batch finishes first: it waits in the buffer
    and is delivered after the first. *)
Example second_batch_finishes_first :
  let b0 := [mkRecord "@a b/1" "ACGT" "!!!!"] in
  let b1 := [mkRecord "@c d/2" "AC" "!!"] in
  exists st,
    rtc (step parallel_receive 2) (start [b0; b1]) st /\ finished st /\
    delivered_of st = [(0, [mkRecord "b" "ACGT" "!!!!"]); (1, [mkRecord "d" "AC" "!!"])].
Proof.
  intros b0 b1.
  exists (Running (mkEngine [] []
            (arrive (0, [mkRecord "b" "ACGT" "!!!!"])
               (arrive (1, [mkRecord "d" "AC" "!!"]) (mkSink 0 ∅ []))))).
  split; [|split; [done|vm_compute; reflexivity]].
  eapply rtc_l; [apply (step_dispatch parallel_receive 2 (0, b0) [(1, b1)] []); cbn; lia|].
  eapply rtc_l; [apply (step_dispatch parallel_receive 2 (1, b1) [] [(0, b0)]); cbn; lia|].
  eapply rtc_l; [apply (step_complete parallel_receive 2 [] [(0, b0)] (1, b1) []
                          [mkRecord "d" "AC" "!!"]); reflexivity|].
  eapply rtc_l; [apply (step_complete parallel_receive 2 [] [] (0, b0) []
                          [mkRecord "b" "ACGT" "!!!!"]); reflexivity|].
  apply rtc_refl.
Qed.

(** C1.  For every input from which the source loop gets the batches
    [bss] and ends without error, for every bound [W >= 1] and every
    complete run of the engine, whatever the order in which the workers
    finished: the sequence numbers of the batches delivered to the writer
    are 0, 1, ..., B-1 in this order, the batch delivered under number [i]
    is the transformed [i]-th batch of the source, the buffer is empty,
    the bytes written are the rewritten records of the input in input
    order; and such a complete run exists. *)
Theorem C1_batches_delivered_in_source_order (W : nat) (n : Z)
    (lines : list string) (e0 : option error)
    (bss : list (list record)) (s' : source)
    (st : pstate (A := list record)) :
  1 <= W -> (0 < n)%Z ->
  source_batches n (newSource lines e0) = Ret (bss, s') ->
  Err s' = None ->
  rtc (step parallel_receive W) (start bss) st ->
  finished st ->
  (delivered_of st).*1 = seq 0 (length bss) /\
  Forall2 (fun b d => parallel_receive b = Ret d) bss (delivered_of st).*2 /\
  buffer_of st = ∅ /\
  record_lines (concat bss) lines /\
  written (delivered_of st) = encode (map rewritten (concat bss)) /\
  exists st', rtc (step parallel_receive W) (start bss) st' /\ finished st'.
Proof.
  intros HW Hn Hsrc Herr Hrun Hfin.
  pose proof (fetch_batches_validated _ _ _ _ _ Hsrc) as Hv.
  destruct (finished_delivered parallel_receive W bss (batches_transform bss Hv) st Hrun Hfin)
    as (H1 & H2 & H3).
  destruct (run_written W n lines e0 bss s' st Hn Hsrc Herr Hrun Hfin) as [H4 H5].
  repeat (split; [done|]). by apply run_exists.
Qed.

Lemma C1_witness :
  written [(0, [mkRecord "b" "ACGT" "!!!!"]); (1, [mkRecord "d" "AC" "!!"])]
  = encode [mkRecord "b" "ACGT" "!!!!"; mkRecord "d" "AC" "!!"].
Proof.
  pose (b0 := [mkRecord "@a b/1" "ACGT" "!!!!"]).
  pose (b1 := [mkRecord "@c d/2" "AC" "!!"]).
  pose (k := arrive (0, [mkRecord "b" "ACGT" "!!!!"])
               (arrive (1, [mkRecord "d" "AC" "!!"]) (mkSink (A := list record) 0 ∅ []))).
  refine (proj1 (proj2 (proj2 (proj2 (proj2
    (C1_batches_delivered_in_source_order 2 1
       ["@a b/1"; "ACGT"; "+"; "!!!!"; "@c d/2"; "AC"; "+x"; "!!"] None
       [b0; b1] (mkSource (mkScanner [] "" None) (Some []) None)
       (Running (mkEngine [] [] k)) _ _ _ _ _ _)))))).
  - lia.
  - lia.
  - reflexivity.
  - reflexivity.
  - eapply rtc_l; [apply (step_dispatch parallel_receive 2 (0, b0) [(1, b1)] []); cbn; lia|].
    eapply rtc_l; [apply (step_dispatch parallel_receive 2 (1, b1) [] [(0, b0)]); cbn; lia|].
    eapply rtc_l; [apply (step_complete parallel_receive 2 [] [(0, b0)] (1, b1) []
                            [mkRecord "d" "AC" "!!"]); reflexivity|].
    eapply rtc_l; [apply (step_complete parallel_receive 2 [] [] (0, b0) []
                            [mkRecord "b" "ACGT" "!!!!"]); reflexivity|].
    apply rtc_refl.
  - done.
Defined.

(** C2.  On a well-formed input, whatever a complete run with bound 1
    writes and whatever a complete run with bound 8 writes are the same
    bytes: the rewritten records of the input in input order, which is also
    what the sequential mode writes; and complete runs with both bounds
    exist. *)
Theorem C2_same_output_for_1_and_8_workers (lines : list string)
    (rs : list record) (n1 n8 : Z) (out1 out8 : string) :
  record_lines rs lines ->
  (0 < n1)%Z -> (0 < n8)%Z ->
  parallel_run 1 n1 lines out1 ->
  parallel_run 8 n8 lines out8 ->
  out1 = out8 /\
  out1 = encode (map rewritten rs) /\
  correctPlatinumFastqSequenceIdentifierSequential (NewScanner lines None)
  = Ret out1 /\
  (exists out, parallel_run 1 n1 lines out) /\
  (exists out, parallel_run 8 n8 lines out).
Proof.
  intros Hrl Hn1 Hn8 Hrun1 Hrun8.
  rewrite (parallel_run_written 1 n1 rs lines out1 Hn1 Hrl Hrun1).
  rewrite (parallel_run_written 8 n8 rs lines out8 Hn8 Hrl Hrun8).
  split; [done|]. split; [done|]. split; [|split].
  - unfold correctPlatinumFastqSequenceIdentifierSequential, NewScanner. cbn [sc_lines].
    rewrite <- (app_nil_r lines), (sequential_loop_groups rs lines Hrl). done.
  - eexists. apply (parallel_run_records 1 n1 rs lines); [lia|done|done].
  - eexists. apply (parallel_run_records 8 n8 rs lines); [lia|done|done].
Qed.

Lemma C2_witness :
  correctPlatinumFastqSequenceIdentifierSequential
    (NewScanner ["@a b/1"; "ACGT"; "+"; "!!!!"; "@c d/2"; "AC"; "+x"; "!!"] None)
  = Ret (encode (map rewritten
           [mkRecord "@a b/1" "ACGT" "!!!!"; mkRecord "@c d/2" "AC" "!!"])).
Proof.
  assert (record_lines [mkRecord "@a b/1" "ACGT" "!!!!"; mkRecord "@c d/2" "AC" "!!"]
            ["@a b/1"; "ACGT"; "+"; "!!!!"; "@c d/2"; "AC"; "+x"; "!!"]) as Hrl.
  { repeat (constructor; [reflexivity|reflexivity|]). constructor. }
  refine (proj1 (proj2 (proj2
            (C2_same_output_for_1_and_8_workers _ _ 1 3 _ _ Hrl _ _ _ _)))).
  - lia.
  - lia.
  - apply parallel_run_records; [lia|lia|exact Hrl].
  - apply parallel_run_records; [lia|lia|exact Hrl].
Defined.

End ParallelMode.

(** * Further properties of the code *)

(** ** The sequential loop *)

Section SequentialLoop.

Local Open Scope nat_scope.

(** A returning run of the sequential loop has read well-formed groups
    only, and has appended their rewritten records to [out]. *)
Lemma sequential_loop_inv n :
  forall lines out out',
  length lines <= n ->
  sequential_loop lines out = Ret out' ->
  exists rs, record_lines rs lines /\
             out' = (out ++ encode (map rewritten rs))%string.
Proof.
  induction n as [|n IH]; intros lines out out' Hlen Hrun.
  - destruct lines; [|cbn in Hlen; lia]. cbn in Hrun. injection Hrun as <-.
    exists []. split; [constructor|]. cbn. by rewrite append_nil_r.
  - destruct lines as [|id lines].
    { cbn in Hrun. injection Hrun as <-.
      exists []. split; [constructor|]. cbn. by rewrite append_nil_r. }
    cbn [sequential_loop] in Hrun. unfold byte_at in Hrun.
    destruct (String.get 0 id) as [c|] eqn:H0; [|done]. cbn in Hrun.
    destruct (Ascii.eqb_spec c "@") as [->|]; [|done]. cbn in Hrun.
    destruct (HasSuffix id "/1" || HasSuffix id "/2") eqn:Hs; [|done]. cbn in Hrun.
    pose proof (valid_identifier_join id H0 Hs) as Hid.
    pose proof (strip_identifier_total id Hid) as Hk. unfold strip_identifier in Hk.
    rewrite Hk in Hrun. cbn in Hrun.
    destruct lines as [|sq lines]; [done|].
    destruct lines as [|sep lines]; [done|].
    destruct (String.get 0 sep) as [c|] eqn:Hp; [|done]. cbn in Hrun.
    destruct (Ascii.eqb_spec c "+") as [->|]; [|done]. cbn in Hrun.
    destruct lines as [|ql lines]; [done|].
    apply IH in Hrun as (rs & Hrl & ->); [|cbn in Hlen; lia].
    assert (valid_separator sep = true) as Hsep.
    { unfold valid_separator. by rewrite Hp. }
    exists (mkRecord id sq ql :: rs). split; [by constructor|].
    cbn [map encode]. unfold record_bytes, rewritten.
    cbn [identifier sequence qualities]. by rewrite !append_assoc.
Qed.

End SequentialLoop.

(** X1.  The sequential loop returns exactly on the inputs that are a
    sequence of well-formed four-line groups, and then it has appended to
    [out] the rewritten records of the input, in input order; on every
    other input it panics. *)
Theorem X1_sequential_returns_iff_well_formed (lines : list string)
    (out out' : string) :
  sequential_loop lines out = Ret out' <->
  exists rs, record_lines rs lines /\
             out' = (out ++ encode (map rewritten rs))%string.
Proof.
  split.
  - by apply (sequential_loop_inv (length lines)).
  - intros (rs & Hrl & ->).
    rewrite <- (app_nil_r lines), (sequential_loop_groups rs lines Hrl). done.
Qed.

(** ** Further properties of [Fetch] *)

(** X2.  A returning call of [Fetch(n)] returns a count between 0 and
    [n]; when [Data()] holds a slice afterwards, the count is its length
    and the stream before the call was exactly the four-line groups of its
    records followed by the stream after the call (no line is lost,
    skipped or reordered); when [Data()] is nil afterwards, the count is 0
    and [Err()] is set. *)
Theorem X2_Fetch_conserves_lines (s : source) (n f : Z) (s' : source) :
  Fetch s n = Ret (f, s') ->
  0 <= f <= Z.max 0 n /\
  (forall d, Data s' = Some d ->
     f = Z.of_nat (length d) /\
     exists ls, record_lines d ls /\
                sc_lines (scanner s) = ls ++ sc_lines (scanner s')) /\
  (Data s' = None -> f = 0 /\ Err s' <> None /\ 0 < n).
Proof.
  intros HF. unfold Data, Err.
  apply Fetch_inv in HF as (_ & rs & ls & rest & Hl & Hrl & Hc).
  destruct Hc as [(Hlen & -> & Hd & _ & Hls)
                 |[(Hlen & -> & _ & -> & Hd & _ & Hls)
                  |(Hlen & -> & Hd & e & He & _)]].
  - split; [lia|]. split.
    + intros d Hd'. rewrite Hd in Hd'. injection Hd' as <-.
      split; [lia|]. exists ls. by rewrite Hls.
    + congruence.
  - split; [lia|]. split.
    + intros d Hd'. rewrite Hd in Hd'. injection Hd' as <-.
      split; [done|]. exists ls. by rewrite Hls.
    + congruence.
  - split; [lia|]. split; [congruence|].
    intros _. split; [done|]. split; [congruence|lia].
Qed.

Lemma X2_witness :
  exists ls,
    record_lines [mkRecord "@a b/1" "ACGT" "!!!!"] ls /\
    ["@a b/1"; "ACGT"; "+x"; "!!!!"; "@c/2"; "AC"] = ls ++ ["@c/2"; "AC"].
Proof.
  refine (proj2 (proj1 (proj2 (X2_Fetch_conserves_lines
            (newSource ["@a b/1"; "ACGT"; "+x"; "!!!!"; "@c/2"; "AC"] None) 1 1
            (mkSource (mkScanner ["@c/2"; "AC"] "!!!!" None)
               (Some [mkRecord "@a b/1" "ACGT" "!!!!"]) None) _))
          [mkRecord "@a b/1" "ACGT" "!!!!"] _)); reflexivity.
Defined.

(** X3.  When the reader fails after [length rs < n] complete well-formed
    groups, [Fetch(n)] returns zero records, [Data()] is nil (the records
    it decoded in this call are dropped) and [Err()] is the read error;
    the sequential loop never consults the scanner's error and returns
    with the records of all complete groups written. *)
Theorem X3_read_error_reported_by_Fetch_only (rs : list record)
    (ls : list string) (s : source) (n : Z) (e : error) :
  sc_lines (scanner s) = ls ->
  record_lines rs ls ->
  Z.of_nat (length rs) < n ->
  sc_err (scanner s) = Some e ->
  (exists s', Fetch s n = Ret (0, s') /\ Data s' = None /\ Err s' = Some e) /\
  correctPlatinumFastqSequenceIdentifierSequential (scanner s)
  = Ret (encode (map rewritten rs)).
Proof.
  intros Hl Hrl Hn He. split.
  - destruct s as [[lines text e0] d er]. cbn in Hl, He. subst lines e0.
    unfold Fetch, set_data. cbn [scanner data err].
    replace (Z.to_nat n) with (length rs + S (Z.to_nat n - length rs - 1))%nat by lia.
    rewrite <- (app_nil_r ls).
    destruct (fetch_loop_groups rs ls Hrl (S (Z.to_nat n - length rs - 1)) 0 [] []
                text (Some e) None er) as [text' ->].
    cbn. eauto.
  - unfold correctPlatinumFastqSequenceIdentifierSequential. rewrite Hl.
    rewrite <- (app_nil_r ls), (sequential_loop_groups rs ls Hrl). done.
Qed.

Lemma X3_witness :
  (exists s',
      Fetch (newSource ["@a b/1"; "ACGT"; "+x"; "!!!!"] (Some (readError "unexpected EOF"))) 2
      = Ret (0, s') /\ Data s' = None /\
      Err s' = Some (readError "unexpected EOF")) /\
  correctPlatinumFastqSequenceIdentifierSequential
    (scanner (newSource ["@a b/1"; "ACGT"; "+x"; "!!!!"] (Some (readError "unexpected EOF"))))
  = Ret (encode (map rewritten [mkRecord "@a b/1" "ACGT" "!!!!"])).
Proof.
  apply (X3_read_error_reported_by_Fetch_only [mkRecord "@a b/1" "ACGT" "!!!!"]
           ["@a b/1"; "ACGT"; "+x"; "!!!!"]).
  - reflexivity.
  - constructor; [reflexivity|reflexivity|constructor].
  - cbn. lia.
  - reflexivity.
Defined.

(** X4.  Decoding the whole input in one batch and passing it through the
    two stage functions is the sequential loop: for a batch size larger
    than the number of lines, the sequential loop returns the bytes [out]
    exactly when [Fetch] returns a batch without error on which the
    parallel stage function returns and the ordered stage function writes
    [out]. *)
Theorem X4_one_batch_is_the_sequential_loop (lines : list string) (n : Z)
    (out : string) :
  Z.of_nat (length lines) < n ->
  (sequential_loop lines "" = Ret out <->
   exists s' d d',
     Fetch (newSource lines None) n = Ret (Z.of_nat (length d), s') /\
     Data s' = Some d /\ Err s' = None /\
     parallel_receive d = Ret d' /\
     ordered_receive d' "" = out).
Proof.
  intros Hn. split.
  - intros Hrun.
    apply (sequential_loop_inv (length lines)) in Hrun as (rs & Hrl & ->); [|done].
    pose proof (record_lines_length rs lines Hrl) as Hlen.
    destruct (Fetch_records rs lines (newSource lines None) n eq_refl Hrl eq_refl)
      as (s' & HF & Hd & He & _); [lia|].
    rewrite take_ge in HF, Hd by lia.
    rewrite decide_False in He by lia.
    exists s', rs, (map rewritten rs). split; [done|]. split; [done|]. split; [done|].
    split.
    + apply parallel_receive_validated. by eapply record_lines_validated.
    + by rewrite ordered_receive_encode.
  - intros (s' & d & d' & HF & Hd & He & Hpar & <-). unfold Data, Err in *.
    apply Fetch_inv in HF as (_ & rs & ls & rest & Hl & Hrl & Hc).
    cbn [newSource NewScanner scanner sc_lines] in Hl.
    pose proof (record_lines_length rs ls Hrl) as Hlen.
    assert (length ls <= length lines)%nat as Hle.
    { rewrite Hl, length_app. lia. }
    destruct Hc as [(Hfull & _)|[(_ & -> & _ & _ & Hd' & _)|(_ & _ & Hd' & _)]].
    + lia.
    + rewrite Hd' in Hd. injection Hd as <-. rewrite app_nil_r in Hl. subst ls.
      rewrite parallel_receive_validated in Hpar by (by eapply record_lines_validated).
      injection Hpar as <-.
      rewrite <- (app_nil_r lines), (sequential_loop_groups rs lines Hrl).
      by rewrite ordered_receive_encode.
    + congruence.
Qed.

Lemma X4_witness :
  sequential_loop ["@a b/1"; "ACGT"; "+x"; "!!!!"] ""
  = Ret (ordered_receive [mkRecord "b" "ACGT" "!!!!"] "").
Proof.
  apply (X4_one_batch_is_the_sequential_loop ["@a b/1"; "ACGT"; "+x"; "!!!!"] 5).
  - cbn. lia.
  - exists (mkSource (mkScanner [] "" None) (Some [mkRecord "@a b/1" "ACGT" "!!!!"]) None),
      [mkRecord "@a b/1" "ACGT" "!!!!"], [mkRecord "b" "ACGT" "!!!!"].
    repeat split; reflexivity.
Defined.

(** X5.  Consecutive calls of [Fetch] on a stream of well-formed groups
    hand out consecutive pieces of the record sequence: [Fetch(n)] returns
    the first [n] records (all of them if there are fewer), a following
    [Fetch(m)] the next [m], together the first [n + m], and the stream
    left holds the groups of the remaining records. *)
Theorem X5_consecutive_fetches (rs : list record) (ls : list string)
    (s : source) (n m : Z) :
  sc_lines (scanner s) = ls ->
  record_lines rs ls ->
  sc_err (scanner s) = None ->
  0 < n -> 0 < m ->
  exists s1 s2,
    Fetch s n = Ret (Z.of_nat (length (take (Z.to_nat n) rs)), s1) /\
    Data s1 = Some (take (Z.to_nat n) rs) /\
    Fetch s1 m
    = Ret (Z.of_nat (length (take (Z.to_nat m) (drop (Z.to_nat n) rs))), s2) /\
    Data s2 = Some (take (Z.to_nat m) (drop (Z.to_nat n) rs)) /\
    take (Z.to_nat n) rs ++ take (Z.to_nat m) (drop (Z.to_nat n) rs)
    = take (Z.to_nat (n + m)) rs /\
    record_lines (drop (Z.to_nat (n + m)) rs) (sc_lines (scanner s2)).
Proof.
  intros Hl Hrl He Hn Hm.
  destruct (Fetch_records rs ls s n Hl Hrl He Hn) as (s1 & HF1 & Hd1 & _ & He1 & Hrl1).
  destruct (Fetch_records _ _ s1 m eq_refl Hrl1 He1 Hm) as (s2 & HF2 & Hd2 & _ & _ & Hrl2).
  exists s1, s2. repeat (split; [done|]).
  rewrite drop_drop in Hrl2.
  replace (Z.to_nat (n + m)) with (Z.to_nat n + Z.to_nat m)%nat by lia.
  split; [apply take_take_drop|done].
Qed.

Lemma X5_witness :
  exists s1 s2,
    Fetch (newSource ["@a b/1"; "ACGT"; "+x"; "!!!!"; "@c/2"; "AC"; "+"; "!!"] None) 1
    = Ret (1, s1) /\
    Data s1 = Some [mkRecord "@a b/1" "ACGT" "!!!!"] /\
    Fetch s1 3 = Ret (1, s2) /\
    Data s2 = Some [mkRecord "@c/2" "AC" "!!"].
Proof.
  destruct (X5_consecutive_fetches
              [mkRecord "@a b/1" "ACGT" "!!!!"; mkRecord "@c/2" "AC" "!!"]
              ["@a b/1"; "ACGT"; "+x"; "!!!!"; "@c/2"; "AC"; "+"; "!!"]
              (newSource ["@a b/1"; "ACGT"; "+x"; "!!!!"; "@c/2"; "AC"; "+"; "!!"] None)
              1 3) as (s1 & s2 & H1 & H2 & H3 & H4 & _).
  - reflexivity.
  - repeat (constructor; [reflexivity|reflexivity|]). constructor.
  - reflexivity.
  - lia.
  - lia.
  - exists s1, s2. repeat split; assumption.
Defined.

(** ** Further properties of the stage functions *)

Section StageFunctions.

Local Open Scope nat_scope.

Lemma append_length_inj (s1 t1 s2 t2 : string) :
  (s1 ++ t1 = s2 ++ t2)%string -> String.length s1 = String.length s2 ->
  s1 = s2 /\ t1 = t2.
Proof.
  revert s2. induction s1 as [|a s1 IH]; intros [|b s2] E Hl; try done.
  rewrite !append_cons in E. injection E as -> E. cbn in Hl.
  destruct (IH s2 E ltac:(lia)) as [-> ->]. done.
Qed.

Lemma slice_parts s lo hi k :
  slice s lo hi = Ret k ->
  exists pre suf,
    s = (pre ++ k ++ suf)%string /\
    Z.of_nat (String.length pre) = lo /\
    Z.of_nat (String.length pre + String.length k) = hi.
Proof.
  unfold slice. intros H.
  destruct (Z.leb_spec 0 lo); [|done].
  destruct (Z.leb_spec lo hi); [|done].
  destruct (Z.leb_spec hi (Z.of_nat (String.length s))); [|done].
  cbn in H. injection H as <-.
  destruct (string_split_at (Z.to_nat lo) s ltac:(lia)) as (pre & rest & -> & Hpre).
  rewrite length_append in *.
  destruct (string_split_at (Z.to_nat (hi - lo)) rest ltac:(lia)) as (mid & suf & -> & Hmid).
  exists pre, suf.
  pose proof (substring_skip pre (mid ++ suf) 0 (String.length mid)) as Hs.
  rewrite Nat.add_0_r, substring_prefix in Hs.
  rewrite <- Hpre, <- Hmid, Hs.
  split; [done|]. split; lia.
Qed.

End StageFunctions.

(** X6.  The ordered stage function only appends: the bytes already in
    [out] stay in front, what is added depends on the records alone, and
    writing a batch and then a second batch is writing the two batches as
    one, so the bytes written do not depend on where the record sequence
    was cut into batches. *)
Theorem X6_ordered_receive_appends (rs1 rs2 : list record) (out : string) :
  ordered_receive rs1 out = (out ++ ordered_receive rs1 "")%string /\
  ordered_receive (rs1 ++ rs2) out
  = ordered_receive rs2 (ordered_receive rs1 out).
Proof.
  split.
  - by rewrite !ordered_receive_encode.
  - by rewrite !ordered_receive_encode, encode_app, append_assoc.
Qed.

(** X7.  On any identifier, validated or not: when the slice expression of
    the rewrite returns, the identifier is a prefix, the kept part and a
    suffix of exactly two bytes; the prefix is empty when the identifier
    has no space and otherwise ends with the first space of the
    identifier; when the expression panics, the panic is a slice-bounds
    panic and the identifier has fewer than two bytes or its first space is
    among its last two bytes. *)
Theorem X7_strip_identifier_parts (id : string) :
  (forall k, strip_identifier id = Ret k ->
     exists pre suf,
       id = (pre ++ k ++ suf)%string /\ String.length suf = 2%nat /\
       (IndexByte id " " = -1 -> pre = ""%string) /\
       (0 <= IndexByte id " " ->
        exists p, pre = (p ++ " ")%string /\ IndexByte p " " = -1)) /\
  (forall p, strip_identifier id = Panic p ->
     p = SliceBoundsOutOfRange /\
     (len id < 2 \/ len id - 2 <= IndexByte id " ")).
Proof.
  split.
  - intros k Hk. unfold strip_identifier in Hk.
    destruct (slice_parts _ _ _ _ Hk) as (pre & suf & E & Hlo & Hhi).
    exists pre, suf. split; [done|].
    assert (String.length id = String.length pre + String.length k + String.length suf)%nat
      as Hlen by (rewrite E at 1; rewrite !length_append; lia).
    unfold len in Hhi. split; [lia|]. split.
    + intros Hno. destruct pre; [done|]. cbn in Hlo. lia.
    + intros Hsp.
      destruct (IndexByte_split id " " Hsp) as (p & rest & E' & Hp).
      exists p. split; [|done].
      rewrite E', (IndexByte_app_first p " " rest Hp) in Hlo.
      rewrite E' in E.
      change (String " " rest) with (" " ++ rest)%string in E.
      rewrite <- append_assoc in E.
      symmetry. apply (append_length_inj _ _ _ _ E).
      rewrite length_append. cbn. lia.
  - intros p Hp. unfold strip_identifier, slice in Hp.
    pose proof (IndexByte_range id " ") as Hr. unfold len in *.
    destruct (Z.leb_spec 0 (IndexByte id " " + 1)); [|lia].
    destruct (Z.leb_spec (IndexByte id " " + 1) (Z.of_nat (String.length id) - 2));
      cbn in Hp.
    + destruct (Z.leb_spec (Z.of_nat (String.length id) - 2)
                  (Z.of_nat (String.length id))); [done|lia].
    + injection Hp as <-. split; [done|]. lia.
Qed.

(** X8.  On any batch, validated or not, the parallel stage function
    returns exactly the batches that agree with the input record by
    record: same number and order of records, the identifier replaced by
    what the slice expression returns on it, sequence and qualities
    untouched; when it panics, it is with the slice-bounds panic of the
    slice expression on one of the records. *)
Theorem X8_parallel_receive_recordwise (rs : list record) :
  (forall rs',
     parallel_receive rs = Ret rs' <->
     Forall2 (fun r r' =>
                strip_identifier (identifier r) = Ret (identifier r') /\
                sequence r' = sequence r /\ qualities r' = qualities r) rs rs') /\
  (forall p,
     parallel_receive rs = Panic p ->
     p = SliceBoundsOutOfRange /\
     exists r, r ∈ rs /\ strip_identifier (identifier r) = Panic p).
Proof.
  induction rs as [|r rs [IHr IHp]]; split.
  - intros rs'. cbn. split.
    + intros H. injection H as <-. constructor.
    + intros H. by inversion H.
  - intros p H. done.
  - intros rs'. cbn [parallel_receive].
    destruct (strip_identifier (identifier r)) as [k|p] eqn:Hk; cbn.
    + destruct (parallel_receive rs) as [rs0|p] eqn:Hrs; cbn.
      * split.
        -- intros H. injection H as <-. constructor; [done|]. by apply IHr.
        -- intros H. inversion H as [|? r' ? rs1 (Hk' & Hs & Hq) Hrest]; subst.
           apply IHr in Hrest. injection Hrest as <-.
           destruct r'. cbn in *. congruence.
      * split; [done|].
        intros H. inversion H as [|? r' ? rs1 _ Hrest]; subst.
        by apply IHr in Hrest.
    + split; [done|].
      intros H. inversion H as [|? r' ? rs1 (Hk' & _) _]; subst. congruence.
  - intros p. cbn [parallel_receive].
    destruct (strip_identifier (identifier r)) as [k|p0] eqn:Hk; cbn.
    + destruct (parallel_receive rs) as [rs0|p1] eqn:Hrs; cbn; [done|].
      intros H. injection H as ->.
      destruct (IHp p eq_refl) as (Hp & r0 & Hin & Hr0).
      split; [done|]. exists r0. split; [by right|done].
    + intros H. injection H as ->. split.
      * unfold strip_identifier, slice in Hk.
        destruct (_ && _); [done|]. by injection Hk.
      * exists r. split; [by left|done].
Qed.

(** ** Panics of [Fetch] and of the sequential loop *)

Section Panics.

Local Open Scope nat_scope.

Lemma get_0_None (s : string) : String.get 0 s = None -> s = ""%string.
Proof. by destruct s. Qed.

Lemma fetch_loop_panic_inv iters :
  forall fetched dat s p,
  fetch_loop iters fetched dat s = Panic p ->
  p = IndexOutOfRange /\
  exists rs ls rest,
    sc_lines (scanner s) = ls ++ rest /\ record_lines rs ls /\
    length rs < iters /\ empty_line rest.
Proof.
  induction iters as [|iters IH]; intros fetched dat s p Hrun; [done|].
  destruct s as [[lines text e] d er].
  destruct lines as [|id lines].
  { cbn in Hrun. by destruct e. }
  cbn in Hrun. unfold byte_at in Hrun.
  destruct (String.get 0 id) as [c|] eqn:H0; cycle 1.
  { cbn in Hrun. injection Hrun as <-. split; [done|].
    apply get_0_None in H0 as ->.
    exists [], [], ("" :: lines)%string. cbn. repeat split; [constructor|lia|constructor]. }
  cbn in Hrun.
  destruct (Ascii.eqb_spec c "@") as [->|Hc]; cbn in Hrun; [|done].
  destruct (HasSuffix id "/1" || HasSuffix id "/2") eqn:Hs; cbn in Hrun; [|done].
  pose proof (valid_identifier_join id H0 Hs) as Hid.
  destruct lines as [|sq lines]; cbn in Hrun; [done|].
  destruct lines as [|sep lines]; cbn in Hrun; [done|].
  destruct (String.get 0 sep) as [c|] eqn:Hp; cycle 1.
  { cbn in Hrun. injection Hrun as <-. split; [done|].
    apply get_0_None in Hp as ->.
    exists [], [], (id :: sq :: "" :: lines)%string. cbn.
    repeat split; [constructor|lia|by constructor]. }
  cbn in Hrun.
  destruct (Ascii.eqb_spec c "+") as [->|Hc]; cbn in Hrun; [|done].
  assert (valid_separator sep = true) as Hsep.
  { unfold valid_separator. by rewrite Hp. }
  destruct lines as [|ql lines]; cbn in Hrun; [done|].
  apply IH in Hrun as (-> & rs & ls & rest & Hl & Hrl & Hlt & Hempty).
  cbn in Hl. split; [done|].
  exists (mkRecord id sq ql :: rs), (id :: sq :: sep :: ql :: ls), rest.
  split; [by rewrite Hl|]. split; [by constructor|]. split; [cbn; lia|done].
Qed.

Lemma fetch_loop_empty_line rest :
  empty_line rest ->
  forall iters fetched dat text e d er,
  fetch_loop (S iters) fetched dat (mkSource (mkScanner rest text e) d er)
  = Panic IndexOutOfRange.
Proof.
  destruct 1 as [rest|id sq rest Hid]; intros iters fetched dat text e d er.
  - reflexivity.
  - apply valid_identifier_split in Hid as [H0 Hs].
    cbn. unfold byte_at. rewrite H0. cbn. rewrite Hs. reflexivity.
Qed.

Lemma sequential_loop_empty_line rest out :
  empty_line rest -> sequential_loop rest out = Panic IndexOutOfRange.
Proof.
  destruct 1 as [rest|id sq rest Hid].
  - reflexivity.
  - pose proof (strip_identifier_total id Hid) as Hk. unfold strip_identifier in Hk.
    apply valid_identifier_split in Hid as [H0 Hs].
    cbn [sequential_loop]. unfold byte_at. rewrite H0. cbn. rewrite Hs. cbn.
    rewrite Hk. reflexivity.
Qed.

Lemma sequential_loop_panic_inv n :
  forall lines out p,
  length lines <= n ->
  sequential_loop lines out = Panic p ->
  (p = AssertionFailed /\
   exists rs ls rest r, lines = ls ++ rest /\ record_lines rs ls /\ violates r rest) \/
  (p = IndexOutOfRange /\
   exists rs ls rest, lines = ls ++ rest /\ record_lines rs ls /\ empty_line rest).
Proof.
  induction n as [|n IH]; intros lines out p Hlen Hrun.
  { destruct lines; [done|cbn in Hlen; lia]. }
  destruct lines as [|id lines]; [done|].
  cbn [sequential_loop] in Hrun. unfold byte_at in Hrun.
  destruct (String.get 0 id) as [c|] eqn:H0; cycle 1.
  { cbn in Hrun. injection Hrun as <-. right. split; [done|].
    apply get_0_None in H0 as ->. exists [], [], ("" :: lines)%string.
    repeat split; constructor. }
  cbn in Hrun.
  destruct (Ascii.eqb_spec c "@") as [->|Hc]; cbn in Hrun; cycle 1.
  { injection Hrun as <-. left. split; [done|].
    exists [], [], (id :: lines), MissingMarker.
    split; [done|]. split; [constructor|]. by eapply violates_marker. }
  destruct (HasSuffix id "/1" || HasSuffix id "/2") eqn:Hs; cbn in Hrun; cycle 1.
  { injection Hrun as <-. left. split; [done|].
    exists [], [], (id :: lines), MissingSuffix.
    split; [done|]. split; [constructor|]. by eapply violates_suffix. }
  pose proof (valid_identifier_join id H0 Hs) as Hid.
  pose proof (strip_identifier_total id Hid) as Hk. unfold strip_identifier in Hk.
  rewrite Hk in Hrun. cbn in Hrun.
  destruct lines as [|sq lines].
  { injection Hrun as <-. left. split; [done|].
    exists [], [], [id], MissingSequence.
    split; [done|]. split; [constructor|]. by constructor. }
  destruct lines as [|sep lines].
  { injection Hrun as <-. left. split; [done|].
    exists [], [], [id; sq], MissingSeparator.
    split; [done|]. split; [constructor|]. by constructor. }
  destruct (String.get 0 sep) as [c|] eqn:Hp; cycle 1.
  { cbn in Hrun. injection Hrun as <-. right. split; [done|].
    apply get_0_None in Hp as ->. exists [], [], (id :: sq :: "" :: lines)%string.
    split; [done|]. split; [constructor|]. by constructor. }
  cbn in Hrun.
  destruct (Ascii.eqb_spec c "+") as [->|Hc]; cbn in Hrun; cycle 1.
  { injection Hrun as <-. left. split; [done|].
    exists [], [], (id :: sq :: sep :: lines), BadSeparator.
    split; [done|]. split; [constructor|]. by eapply violates_separator. }
  assert (valid_separator sep = true) as Hsep.
  { unfold valid_separator. by rewrite Hp. }
  destruct lines as [|ql lines].
  { injection Hrun as <-. left. split; [done|].
    exists [], [], [id; sq; sep], MissingQualities.
    split; [done|]. split; [constructor|]. by constructor. }
  apply IH in Hrun; [|cbn in Hlen; lia].
  destruct Hrun as [(-> & rs & ls & rest & r & -> & Hrl & Hv)
                   |(-> & rs & ls & rest & -> & Hrl & He)].
  - left. split; [done|].
    exists (mkRecord id sq ql :: rs), (id :: sq :: sep :: ql :: ls), rest, r.
    split; [done|]. split; [by constructor|done].
  - right. split; [done|].
    exists (mkRecord id sq ql :: rs), (id :: sq :: sep :: ql :: ls), rest.
    split; [done|]. split; [by constructor|done].
Qed.

End Panics.

(** X13.  [Fetch(n)] panics exactly when, after fewer than [n]
    well-formed groups, it meets a group whose identifier line is empty or
    whose separator line (after a validated identifier line) is empty; the
    panic is then the index-out-of-range panic of indexing the line at 0.
    In particular [Fetch] never panics on a stream without empty lines. *)
Theorem X13_Fetch_panics_on_empty_lines_only (s : source) (n : Z) (p : panic) :
  Fetch s n = Panic p <->
  p = IndexOutOfRange /\
  exists rs ls rest,
    sc_lines (scanner s) = ls ++ rest /\ record_lines rs ls /\
    Z.of_nat (length rs) < n /\ empty_line rest.
Proof.
  split.
  - unfold Fetch. intros H.
    apply fetch_loop_panic_inv in H as (-> & rs & ls & rest & Hl & Hrl & Hlt & He).
    split; [done|]. exists rs, ls, rest. repeat (split; [done|]). split; [lia|done].
  - intros (-> & rs & ls & rest & Hl & Hrl & Hlt & He).
    destruct s as [[lines text e] d er]. cbn in Hl. subst lines.
    unfold Fetch, set_data. cbn [scanner data err].
    replace (Z.to_nat n) with (length rs + S (Z.to_nat n - length rs - 1))%nat by lia.
    destruct (fetch_loop_groups rs ls Hrl (S (Z.to_nat n - length rs - 1)) 0 [] rest
                text e None er) as [text' ->].
    by apply fetch_loop_empty_line.
Qed.

(** X14.  The sequential loop panics in two ways only: with a failed
    assertion, exactly when after some well-formed groups a group breaks
    one of the structural rules, and with an index out of range, exactly
    when after some well-formed groups a group has an empty identifier
    line or an empty separator line.  The slice expression never panics in
    the loop, and no error is ever passed to [check]. *)
Theorem X14_sequential_loop_panics (lines : list string) (out : string)
    (p : panic) :
  sequential_loop lines out = Panic p <->
  (p = AssertionFailed /\
   exists rs ls rest r, lines = ls ++ rest /\ record_lines rs ls /\ violates r rest) \/
  (p = IndexOutOfRange /\
   exists rs ls rest, lines = ls ++ rest /\ record_lines rs ls /\ empty_line rest).
Proof.
  split.
  - by apply (sequential_loop_panic_inv (length lines)).
  - intros [(-> & rs & ls & rest & r & -> & Hrl & Hv)
           |(-> & rs & ls & rest & -> & Hrl & He)];
      rewrite (sequential_loop_groups rs ls Hrl).
    + by apply sequential_loop_violation with (r := r).
    + by apply sequential_loop_empty_line.
Qed.

(** ** The two modes with their files, and [main] *)

Section Program.

Local Open Scope nat_scope.

Ltac unfold_program :=
  cbv [Prog.main Prog.arg Prog.correctPlatinumFastqSequenceIdentifierSequential
       Prog.correctPlatinumFastqSequenceIdentifierParallel Prog.newSource
       Prog.Close Prog.check_close Prog.close Prog.acquire Prog.defer
       Prog.bind Prog.ret Prog.emit Prog.lift check NewScanner sc_lines].

Ltac settle_world w :=
  repeat match goal with
    | |- context [Prog.os_Open w ?n] => destruct (Prog.os_Open w n) eqn:?
    | |- context [Prog.os_Create w ?n] => destruct (Prog.os_Create w n) eqn:?
    | |- context [Prog.gzip_NewReader w] => destruct (Prog.gzip_NewReader w) eqn:?
    | |- context [Prog.close_result w ?h] => destruct (Prog.close_result w h) eqn:?
    | |- context [Prog.pipeline_Run w ?s] => destruct (Prog.pipeline_Run w s) as [[?|]|] eqn:?
    | |- context [sequential_loop ?l ?o] => destruct (sequential_loop l o) eqn:?
    end.

Lemma held_Sequential w i o :
  Prog.held (Prog.correctPlatinumFastqSequenceIdentifierSequential w i o []).2 [] = Some [].
Proof. unfold_program. settle_world w; reflexivity. Qed.

Lemma held_Parallel w i o :
  Prog.held (Prog.correctPlatinumFastqSequenceIdentifierParallel w i o []).2 [] = Some [].
Proof. unfold_program. settle_world w; reflexivity. Qed.

Lemma loop_returns_iff lines :
  (exists out, sequential_loop lines "" = Ret out) <->
  (exists rs, record_lines rs lines).
Proof.
  split.
  - intros [out H]. apply (sequential_loop_inv (length lines)) in H as (rs & Hrl & _); eauto.
  - intros [rs Hrl]. eexists.
    rewrite <- (app_nil_r lines), (sequential_loop_groups rs lines Hrl). done.
Qed.

(** X9.  [Prog.main] reads [os.Args[1]] before anything else: without a mode
    argument it panics with an index out of range and prints no usage
    message; with a mode other than "seq" and "par" it prints the usage
    line and touches no file; with "seq" or "par" and fewer than two
    further arguments it panics with an index out of range before any
    file is opened; further arguments are ignored. *)
Theorem X9_main_arguments (w : Prog.World) :
  (forall Args, length Args < 2 ->
     Prog.main w Args [] = (Prog.Panics [IndexOutOfRange], [])) /\
  (forall prog mode rest, mode <> "seq"%string -> mode <> "par"%string ->
     Prog.main w (prog :: mode :: rest) [] = (Prog.Normal tt, [Prog.Println [Prog.usage]])) /\
  (forall prog mode rest, mode = "seq"%string \/ mode = "par"%string ->
     length rest < 2 ->
     Prog.main w (prog :: mode :: rest) [] = (Prog.Panics [IndexOutOfRange], [])) /\
  (forall prog i o more,
     Prog.main w (prog :: "seq"%string :: i :: o :: more)
     = Prog.correctPlatinumFastqSequenceIdentifierSequential w i o /\
     Prog.main w (prog :: "par"%string :: i :: o :: more)
     = Prog.correctPlatinumFastqSequenceIdentifierParallel w i o).
Proof.
  split; [|split; [|split]].
  - intros [|prog [|mode rest]] Hlen; [reflexivity|reflexivity|cbn in Hlen; lia].
  - intros prog mode rest Hs Hp. unfold Prog.main, Prog.arg, Prog.bind, Prog.ret. cbn [lookup list_lookup].
    apply String.eqb_neq in Hs, Hp. by rewrite Hs, Hp.
  - intros prog mode rest [-> | ->] Hlen;
      destruct rest as [|i [|o more]]; try (cbn in Hlen; lia); reflexivity.
  - intros prog i o more. split; reflexivity.
Qed.

(** X10.  On every exit path of [Prog.main], in every world and for all
    arguments, whether it returns or panics: every file, gzip reader and
    gzip writer that was acquired has been closed, each exactly once and
    in the reverse order of acquisition, and nothing is closed that is not
    held. *)
Theorem X10_every_handle_closed (w : Prog.World) (Args : list string) :
  Prog.held (Prog.main w Args []).2 [] = Some [].
Proof.
  destruct Args as [|prog [|mode rest]]; [reflexivity|reflexivity|].
  unfold Prog.main, Prog.arg. cbn [lookup list_lookup]. unfold Prog.bind at 1, Prog.ret at 1.
  destruct (String.eqb mode "seq").
  { destruct rest as [|i [|o more]]; [reflexivity|reflexivity|].
    apply (held_Sequential w i o). }
  destruct (String.eqb mode "par").
  { destruct rest as [|i [|o more]]; [reflexivity|reflexivity|].
    apply (held_Parallel w i o). }
  reflexivity.
Qed.

(** X11.  The sequential mode returns normally exactly when [os.Open],
    [os.Create] and [gzip.NewReader] succeed, all four [Close] calls return
    nil and the input is a sequence of well-formed groups; an error of the
    scanner plays no part.  The parallel mode returns normally exactly when
    the same calls succeed and [p.Err()] is nil after [p.Run()].  In every
    other case the mode panics. *)
Theorem X11_normal_exit (w : Prog.World) (i o : string) :
  ((Prog.correctPlatinumFastqSequenceIdentifierSequential w i o []).1 = Prog.Normal tt <->
   Prog.os_Open w i = None /\ Prog.os_Create w o = None /\ Prog.gzip_NewReader w = None /\
   (forall h, Prog.close_result w h = None) /\
   exists rs, record_lines rs (Prog.input_lines w)) /\
  ((Prog.correctPlatinumFastqSequenceIdentifierParallel w i o []).1 = Prog.Normal tt <->
   Prog.os_Open w i = None /\ Prog.os_Create w o = None /\ Prog.gzip_NewReader w = None /\
   (forall h, Prog.close_result w h = None) /\
   Prog.pipeline_Run w (newSource (Prog.input_lines w) (Prog.input_err w)) = Ret None).
Proof.
  split; split.
  - pose proof (loop_returns_iff (Prog.input_lines w)) as Hloop.
    unfold_program. intros Hrun.
    destruct (Prog.os_Open w i) eqn:Ho; [discriminate Hrun|].
    destruct (Prog.os_Create w o) eqn:Hc.
    { cbn in Hrun. destruct (Prog.close_result w Prog.InFile); discriminate Hrun. }
    destruct (Prog.gzip_NewReader w) eqn:Hg.
    { cbn in Hrun. destruct (Prog.close_result w Prog.OutFile), (Prog.close_result w Prog.InFile);
        discriminate Hrun. }
    destruct (sequential_loop (Prog.input_lines w) "") eqn:Hl; cbn in Hrun.
    + destruct (Prog.close_result w Prog.GzWriter) eqn:H1, (Prog.close_result w Prog.GzReader) eqn:H2,
        (Prog.close_result w Prog.OutFile) eqn:H3, (Prog.close_result w Prog.InFile) eqn:H4;
        try discriminate Hrun.
      repeat (split; [done|]). split; [by intros []|]. apply Hloop. eauto.
    + destruct (Prog.close_result w Prog.GzWriter), (Prog.close_result w Prog.GzReader),
        (Prog.close_result w Prog.OutFile), (Prog.close_result w Prog.InFile); discriminate Hrun.
  - intros (Ho & Hc & Hg & Hcl & Hrl).
    apply (loop_returns_iff (Prog.input_lines w)) in Hrl as [out Hout].
    unfold_program. rewrite Ho, Hc, Hg, !Hcl, Hout. reflexivity.
  - unfold_program. intros Hrun.
    destruct (Prog.os_Open w i) eqn:Ho; [discriminate Hrun|].
    destruct (Prog.gzip_NewReader w) eqn:Hg; [discriminate Hrun|].
    destruct (Prog.os_Create w o) eqn:Hc.
    { cbn in Hrun. destruct (Prog.close_result w Prog.GzReader), (Prog.close_result w Prog.InFile);
        discriminate Hrun. }
    destruct (Prog.pipeline_Run w (newSource (Prog.input_lines w) (Prog.input_err w)))
      as [[e|]|p] eqn:Hp; cbn in Hrun.
    + destruct (Prog.close_result w Prog.GzWriter), (Prog.close_result w Prog.GzReader),
        (Prog.close_result w Prog.OutFile), (Prog.close_result w Prog.InFile); discriminate Hrun.
    + destruct (Prog.close_result w Prog.GzWriter) eqn:H1, (Prog.close_result w Prog.GzReader) eqn:H2,
        (Prog.close_result w Prog.OutFile) eqn:H3, (Prog.close_result w Prog.InFile) eqn:H4;
        try discriminate Hrun.
      repeat (split; [done|]). split; [by intros []|done].
    + destruct (Prog.close_result w Prog.GzWriter), (Prog.close_result w Prog.GzReader),
        (Prog.close_result w Prog.OutFile), (Prog.close_result w Prog.InFile); discriminate Hrun.
  - intros (Ho & Hc & Hg & Hcl & Hp).
    unfold_program. rewrite Ho, Hc, Hg, !Hcl, Hp. reflexivity.
Qed.

(** X12.  When the input file cannot be opened, both modes panic with the
    error of [os.Open] and create no output file.  When the input file is
    opened but is not gzip data, the parallel mode closes the input file,
    ignores what that [Close] returns, panics with the error of
    [gzip.NewReader] and has not created the output file; the sequential
    mode has already created the output file by then, and closes both
    files before the panic leaves it. *)
Theorem X12_output_file_creation (w : Prog.World) (i o : string) :
  (forall e, Prog.os_Open w i = Some e ->
     Prog.correctPlatinumFastqSequenceIdentifierSequential w i o []
     = (Prog.Panics [PanicError e],
        [Prog.Println ["Correcting platinum fastq sequence identifiers sequentially:"%string;
                  i; "to"%string; o];
         Prog.Refused Prog.InFile e]) /\
     Prog.correctPlatinumFastqSequenceIdentifierParallel w i o []
     = (Prog.Panics [PanicError e],
        [Prog.Println ["Correcting platinum fastq sequence identifiers in parallel:"%string;
                  i; "to"%string; o];
         Prog.Refused Prog.InFile e])) /\
  (forall e, Prog.os_Open w i = None -> Prog.gzip_NewReader w = Some e ->
     Prog.correctPlatinumFastqSequenceIdentifierParallel w i o []
     = (Prog.Panics [PanicError e],
        [Prog.Println ["Correcting platinum fastq sequence identifiers in parallel:"%string;
                  i; "to"%string; o];
         Prog.Acquired Prog.InFile; Prog.Refused Prog.GzReader e;
         Prog.Closed Prog.InFile (Prog.close_result w Prog.InFile)]) /\
     (Prog.os_Create w o = None ->
      exists ps,
        Prog.correctPlatinumFastqSequenceIdentifierSequential w i o []
        = (Prog.Panics (PanicError e :: ps),
           [Prog.Println ["Correcting platinum fastq sequence identifiers sequentially:"%string;
                     i; "to"%string; o];
            Prog.Acquired Prog.InFile; Prog.Acquired Prog.OutFile; Prog.Refused Prog.GzReader e;
            Prog.Closed Prog.OutFile (Prog.close_result w Prog.OutFile);
            Prog.Closed Prog.InFile (Prog.close_result w Prog.InFile)]))).
Proof.
  split.
  - intros e Ho. unfold_program. rewrite Ho. split; reflexivity.
  - intros e Ho Hg. split.
    + unfold_program. rewrite Ho, Hg. reflexivity.
    + intros Hc. unfold_program. rewrite Ho, Hc, Hg.
      destruct (Prog.close_result w Prog.OutFile), (Prog.close_result w Prog.InFile); eexists; reflexivity.
Qed.

End Program.
